(** * Verification of scripts/replace_project_placeholders.py

    A shallow embedding of the placeholder-replacement script: Python's
    [str] operations used by the script, a model of the file system the
    script walks, the script's functions in a state-and-exception monad,
    and the properties of a run. *)

From Stdlib Require Import Ascii String.
From stdpp Require Import gmap strings list fin_maps.

Local Open Scope list_scope.
Set Warnings "-register-all".

(** ** Python [str] operations

    A [str] is a list of characters.  The operations are written for any
    element type with decidable equality and used at [ascii]. *)

Module PyStr.
Section str.
Context {A : Type} `{EqDecision A}.

(** [s.startswith(sub)] *)
Fixpoint startswith (s sub : list A) {struct sub} : bool :=
  match sub, s with
  | [], _ => true
  | _ :: _, [] => false
  | x :: sub', y :: s' => bool_decide (x = y) && startswith s' sub'
  end.

(** [sub in s] *)
Fixpoint contains (sub s : list A) : bool :=
  startswith s sub ||
  match s with
  | [] => false
  | _ :: s' => contains sub s'
  end.

(** The scan of [s.replace(old, new)] for a non-empty [old]: at each
    position, a match of [old] is replaced and the scan resumes after
    it, so matches are the leftmost non-overlapping ones.  [fuel]
    bounds the number of steps; [length s] is enough. *)
Fixpoint replace_from (fuel : nat) (old new s : list A) : list A :=
  match fuel, s with
  | _, [] => []
  | 0, _ :: _ => s
  | S n, c :: s' =>
      if startswith s old
      then new ++ replace_from n old new (drop (length old) s)
      else c :: replace_from n old new s'
  end.

(** [s.replace(old, new)]; with an empty [old], [new] is inserted
    before every character and at the end. *)
Definition replace (s old new : list A) : list A :=
  match old with
  | [] => new ++ flat_map (λ c, c :: new) s
  | _ :: _ => replace_from (length s) old new s
  end.

(** [s.count(sub)]: the number of non-overlapping occurrences. *)
Fixpoint count_from (fuel : nat) (sub s : list A) : nat :=
  match fuel, s with
  | _, [] => 0
  | 0, _ :: _ => 0
  | S n, _ :: s' =>
      if startswith s sub
      then S (count_from n sub (drop (length sub) s))
      else count_from n sub s'
  end.

Definition count (s sub : list A) : nat :=
  match sub with
  | [] => S (length s)
  | _ :: _ => count_from (length s) sub s
  end.

(** [sep.join(pieces)] *)
Fixpoint join (sep : list A) (pieces : list (list A)) : list A :=
  match pieces with
  | [] => []
  | [p] => p
  | p :: ps => p ++ sep ++ join sep ps
  end.

(** [sub] occurs in [s]. *)
Definition infix (sub s : list A) : Prop := ∃ a b, s = a ++ sub ++ b.

(** The input/output relation of the replacement scan. *)
Inductive replaced (old new : list A) : list A → list A → Prop :=
| replaced_nil : replaced old new [] []
| replaced_hit s r :
    replaced old new s r → replaced old new (old ++ s) (new ++ r)
| replaced_skip c s r :
    startswith (c :: s) old = false →
    replaced old new s r → replaced old new (c :: s) (c :: r).

(** A non-empty prefix of [x] is a suffix of [y]. *)
Definition border (x y : list A) : bool :=
  existsb (λ n, bool_decide (take n x = drop (length y - n) y))
          (seq 1 (min (length x) (length y))).

(** [v] can be put in place of [t] without forming a new [t]: neither
    contains the other, and no end of one matches the facing end of
    the other. *)
Definition overlap_free (t v : list A) : bool :=
  negb (contains v t) && negb (contains t v)
  && negb (border v t) && negb (border t v).

Record OverlapFree (t v : list A) : Prop := {
  of_not_inside : ¬ infix v t;
  of_not_around : ¬ infix t v;
  of_no_head : ∀ w, w ≠ [] → w `prefix_of` v → w `suffix_of` t → False;
  of_no_tail : ∀ w, w ≠ [] → w `suffix_of` v → w `prefix_of` t → False
}.

End str.
End PyStr.

(** ** Values, exceptions and the file system *)

Abbreviation str := (list ascii).

(** A string literal. *)
Definition lit (s : string) : str := list_ascii_of_string s.

Definition TOKEN_NAME : str := lit "__PROJECT_NAME__".
Definition TOKEN_LABEL : str := lit "__PROJECT_LABEL__".

(** The exceptions the script can meet.  [OSError] stands for an
    operating-system failure that has no subclass of its own (I/O error,
    read-only file system, no space left, ...). *)
Inductive exn :=
| FileNotFoundError
| PermissionError
| FileExistsError
| IsADirectoryError
| NotADirectoryError
| OSError
| UnicodeDecodeError
| YAMLError
| KeyError (key : str)
| TypeError
| ValueError (msg : str).

(** [isinstance(e, OSError)] *)
Definition is_OSError (e : exn) : bool :=
  match e with
  | FileNotFoundError | PermissionError | FileExistsError
  | IsADirectoryError | NotADirectoryError | OSError => true
  | _ => false
  end.

(** [isinstance(e, (UnicodeDecodeError, PermissionError))] *)
Definition is_decode_or_permission (e : exn) : bool :=
  match e with
  | UnicodeDecodeError | PermissionError => true
  | _ => false
  end.

(** The objects [yaml.safe_load] builds.  A mapping is kept as its items
    with string keys, the only keys a string subscript can find. *)
Inductive pyval :=
| PNone
| PBool (b : bool)
| PInt (z : Z)
| PStr (s : str)
| PList (l : list pyval)
| PDict (items : list (str * pyval)).

Fixpoint dict_get (items : list (str * pyval)) (key : str) : option pyval :=
  match items with
  | [] => None
  | (k, v) :: rest => if bool_decide (k = key) then Some v else dict_get rest key
  end.

(** [v[key]] for a string [key]. *)
Definition getitem (v : pyval) (key : str) : exn + pyval :=
  match v with
  | PDict items =>
      match dict_get items key with
      | Some x => inr x
      | None => inl (KeyError key)
      end
  | _ => inl TypeError
  end.

(** What a regular file holds: bytes that decode as UTF-8 to a text, or
    bytes that do not decode. *)
Inductive content :=
| Text (s : str)
| Binary (bytes : list Byte.byte).

(** Why an operation on a file is refused: access denied (EACCES, EPERM)
    or any other failure of the operating system. *)
Inductive fault := Denied | Failing.

Definition fault_exn (f : fault) : exn :=
  match f with
  | Denied => PermissionError
  | Failing => OSError
  end.

Record file := File {
  f_ino : nat;                (* identity of the file, kept by a rename *)
  f_data : content;
  f_read : option fault;      (* opening for reading fails *)
  f_write : option fault;     (* opening for writing fails *)
  f_move : option fault       (* renaming the file fails *)
}.

Inductive node :=
| NFile (f : file)
| NDir.

(** A location in the file system: the components from the root. *)
Abbreviation location := (list str).

Abbreviation filesystem := (gmap location node).

(** A [pathlib.Path]: anchored at the root or relative, with its parts. *)
Record Path := MkPath { p_absolute : bool; p_parts : list str }.

Global Instance Path_eq_dec : EqDecision Path.
Proof. solve_decision. Defined.

(** Splitting a string at the separator. *)
Fixpoint split_sep (sep : ascii) (s : str) : list str :=
  match s with
  | [] => [[]]
  | c :: s' =>
      if bool_decide (c = sep) then [] :: split_sep sep s'
      else match split_sep sep s' with
           | [] => [[c]]
           | p :: ps => (c :: p) :: ps
           end
  end.

Definition SLASH : ascii := "/"%char.

(** [Path(s)]: empty and [.] components are dropped, [..] is kept. *)
Definition path_of (s : str) : Path :=
  MkPath (PyStr.startswith s [SLASH])
         (filter (λ c, c ≠ [] ∧ c ≠ lit ".") (split_sep SLASH s)).

(** [p / s] *)
Definition truediv (p : Path) (s : str) : Path :=
  let q := path_of s in
  if p_absolute q then q
  else MkPath (p_absolute p) (p_parts p ++ p_parts q).

(** [p.name] *)
Definition name (p : Path) : str := List.last (p_parts p) [].

(** [p.parent] *)
Definition parent (p : Path) : Path :=
  MkPath (p_absolute p) (removelast (p_parts p)).

(** What the script does not decide: the working directory, whether a
    rename replaces an existing file (POSIX) or fails (Windows), the YAML
    parser ([None] for a [yaml.YAMLError]) and the order in which a
    directory tree is enumerated. *)
Record platform := Platform {
  cwd : location;
  posix : bool;
  yaml_safe_load : str → option pyval;
  listing : list location → list location
}.

(** One file-system call of the script. *)
Inductive event :=
| EvRead (p : Path)
| EvWrite (p : Path)
| EvRename (src dst : Path).

(** One line of console output. *)
Inductive message :=
| MsgStarting
| MsgProjectName (v : pyval)
| MsgProjectLabel (v : pyval)
| MsgErrorLoading (e : exn)
| MsgSearching
| MsgFoundContent (n : nat)
| MsgFoundNames (n : nat)
| MsgUpdating
| MsgWarnUpdate (p : Path) (e : exn)
| MsgUpdated (p : Path)
| MsgRenaming
| MsgWarnRename (src dst : Path) (e : exn)
| MsgRenamed (old new : str)
| MsgSummary
| MsgSummaryUpdated (n : nat)
| MsgSummaryRenamed (n : nat)
| MsgCompleted.

Record world := World {
  w_fs : filesystem;
  w_out : list message;
  w_trace : list event
}.

(** ** Computations that change the world and may raise *)

Inductive result (A : Type) :=
| Ok (a : A)
| Raise (e : exn).
Arguments Ok {A} a.
Arguments Raise {A} e.

Definition M (A : Type) : Type := world → result A * world.

Definition ret {A} (a : A) : M A := λ w, (Ok a, w).

Definition raise {A} (e : exn) : M A := λ w, (Raise e, w).

Definition bind {A B} (m : M A) (k : A → M B) : M B :=
  λ w, match m w with
       | (Ok a, w') => k a w'
       | (Raise e, w') => (Raise e, w')
       end.

(** [try: m except ...]: the handler picks the exceptions it catches. *)
Definition try_except {A} (m : M A) (handler : exn → option (M A)) : M A :=
  λ w, match m w with
       | (Ok a, w') => (Ok a, w')
       | (Raise e, w') =>
           match handler e with
           | Some h => h w'
           | None => (Raise e, w')
           end
       end.

Declare Scope py_scope.
Delimit Scope py_scope with py.
Notation "x <- m ;; k" := (bind m (λ x, k))
  (at level 100, m at next level, right associativity) : py_scope.
Notation "m ;; k" := (bind m (λ _, k))
  (at level 100, right associativity) : py_scope.
Local Open Scope py_scope.

(** [for x in xs: acc = body(acc, x)] *)
Fixpoint for_each {X S} (xs : list X) (body : S → X → M S) (acc : S) : M S :=
  match xs with
  | [] => ret acc
  | x :: rest => acc' <- body acc x;; for_each rest body acc'
  end.

Definition lift {A} (r : exn + A) : M A :=
  match r with
  | inl e => raise e
  | inr a => ret a
  end.

Definition print (m : message) : M unit :=
  λ w, (Ok (), World (w_fs w) (w_out w ++ [m]) (w_trace w)).

Definition log (e : event) : M unit :=
  λ w, (Ok (), World (w_fs w) (w_out w) (w_trace w ++ [e])).

Definition get_fs : M filesystem := λ w, (Ok (w_fs w), w).

Definition set_fs (fs : filesystem) : M unit :=
  λ w, (Ok (), World fs (w_out w) (w_trace w)).

(** ** File-system calls *)

Definition is_dir (fs : filesystem) (k : location) : bool :=
  match fs !! k with
  | Some NDir => true
  | _ => false
  end.

Definition is_reg (fs : filesystem) (k : location) : bool :=
  match fs !! k with
  | Some (NFile _) => true
  | _ => false
  end.

Definition DOTDOT : str := lit "..".

(** One component of a path walk: [..] goes up (the root is its own
    parent), a name goes down. *)
Definition step (cur : location) (c : str) : location :=
  if bool_decide (c = DOTDOT) then removelast cur else cur ++ [c].

(** The walk of the operating system along the components of a path:
    every component is looked up in a directory that must exist. *)
Fixpoint walk (fs : filesystem) (cur : location) (comps : list str)
  : exn + location :=
  match comps with
  | [] => inr cur
  | c :: rest =>
      match fs !! cur with
      | Some NDir => walk fs (step cur c) rest
      | Some (NFile _) => inl NotADirectoryError
      | None => inl FileNotFoundError
      end
  end.

(** [strip pre k]: what is left of [k] after the prefix [pre]. *)
Fixpoint strip (pre k : location) : option location :=
  match pre, k with
  | [], _ => Some k
  | x :: pre', y :: k' => if bool_decide (x = y) then strip pre' k' else None
  | _ :: _, [] => None
  end.

(** The entry [d ++ rel] is reached from the directory [d] through
    directories only. *)
Definition below (fs : filesystem) (d rel : location) : bool :=
  forallb (λ n, is_dir fs (d ++ take n rel)) (seq 0 (length rel)).

Definition has_children (fs : filesystem) (d : location) : bool :=
  existsb (λ k, match strip d k with Some (_ :: _) => true | _ => false end)
          (map fst (map_to_list fs)).

(** A directory tree moved from [ks] to [kd]. *)
Definition move_tree (fs : filesystem) (ks kd : location) : filesystem :=
  list_to_map
    (map (λ kn : location * node,
            (match strip ks kn.1 with
             | Some rel => kd ++ rel
             | None => kn.1
             end, kn.2))
         (map_to_list (delete kd fs))).

Definition fresh_ino (fs : filesystem) : nat :=
  S (map_fold (λ _ n m, match n with NFile f => max (f_ino f) m | NDir => m end)
              0 fs).

Definition set_data (f : file) (c : content) : file :=
  File (f_ino f) c (f_read f) (f_write f) (f_move f).

Section calls.
Variable pf : platform.

(** Where a path leads. *)
Definition locate (fs : filesystem) (p : Path) : exn + location :=
  walk fs (if p_absolute p then [] else cwd pf) (p_parts p).

(** [open(p, 'r', encoding='utf-8')] and [read()] *)
Definition read_fs (fs : filesystem) (p : Path) : exn + str :=
  match locate fs p with
  | inl e => inl e
  | inr k =>
      match fs !! k with
      | None => inl FileNotFoundError
      | Some NDir => inl IsADirectoryError
      | Some (NFile f) =>
          match f_read f with
          | Some flt => inl (fault_exn flt)
          | None =>
              match f_data f with
              | Text s => inr s
              | Binary _ => inl UnicodeDecodeError
              end
          end
      end
  end.

(** [open(p, 'w', encoding='utf-8')] and [write(s)] *)
Definition write_fs (fs : filesystem) (p : Path) (s : str)
  : exn + filesystem :=
  match locate fs p with
  | inl e => inl e
  | inr k =>
      match fs !! k with
      | None => inr (<[k := NFile (File (fresh_ino fs) (Text s) None None None)]> fs)
      | Some NDir => inl IsADirectoryError
      | Some (NFile f) =>
          match f_write f with
          | Some flt => inl (fault_exn flt)
          | None => inr (<[k := NFile (set_data f (Text s))]> fs)
          end
      end
  end.

(** [os.rename(src, dst)].  A regular file takes the place of an
    existing regular file on POSIX and is refused on Windows; it never
    takes the place of a directory. *)
Definition rename_fs (fs : filesystem) (src dst : Path)
  : exn + filesystem :=
  match locate fs src, locate fs dst with
  | inl e, _ => inl e
  | _, inl e => inl e
  | inr ks, inr kd =>
      match fs !! ks with
      | None => inl FileNotFoundError
      | Some (NFile f) =>
          match f_move f with
          | Some flt => inl (fault_exn flt)
          | None =>
              if bool_decide (ks = kd) then inr fs
              else match fs !! kd with
                   | None => inr (<[kd := NFile f]> (delete ks fs))
                   | Some NDir =>
                       inl (if posix pf then IsADirectoryError else PermissionError)
                   | Some (NFile _) =>
                       if posix pf then inr (<[kd := NFile f]> (delete ks fs))
                       else inl FileExistsError
                   end
          end
      | Some NDir =>
          if bool_decide (ks = kd) then inr fs
          else match strip ks kd with
               | Some _ => inl OSError
               | None =>
                   match fs !! kd with
                   | None => inr (move_tree fs ks kd)
                   | Some (NFile _) =>
                       inl (if posix pf then NotADirectoryError else FileExistsError)
                   | Some NDir =>
                       if posix pf && negb (has_children fs kd)
                       then inr (move_tree fs ks kd)
                       else inl (if posix pf then OSError else FileExistsError)
                   end
               end
      end
  end.

Definition open_read (p : Path) : M str :=
  log (EvRead p);; fs <- get_fs;; lift (read_fs fs p).

Definition open_write (p : Path) (s : str) : M unit :=
  log (EvWrite p);; fs <- get_fs;; fs' <- lift (write_fs fs p s);; set_fs fs'.

Definition os_rename (src dst : Path) : M unit :=
  log (EvRename src dst);; fs <- get_fs;;
  fs' <- lift (rename_fs fs src dst);; set_fs fs'.

(** [p.exists()] *)
Definition exists_fs (fs : filesystem) (p : Path) : bool :=
  match locate fs p with
  | inr k => bool_decide (is_Some (fs !! k))
  | inl _ => false
  end.

Definition exists_ (p : Path) : M bool :=
  fs <- get_fs;; ret (exists_fs fs p).

(** [p.is_file()] *)
Definition is_file_fs (fs : filesystem) (p : Path) : bool :=
  match locate fs p with
  | inr k => is_reg fs k
  | inl _ => false
  end.

Definition is_file (p : Path) : M bool :=
  fs <- get_fs;; ret (is_file_fs fs p).

(** [dir_path.rglob('*')]: every entry below the directory, as a path
    that extends [dir_path]. *)
Definition rglob_entry (fs : filesystem) (dir_path : Path) (d k : location)
  : option Path :=
  match strip d k with
  | Some (c :: rel) =>
      if below fs d (c :: rel)
      then Some (MkPath (p_absolute dir_path) (p_parts dir_path ++ c :: rel))
      else None
  | _ => None
  end.

Definition rglob_fs (fs : filesystem) (dir_path : Path) : list Path :=
  match locate fs dir_path with
  | inr d =>
      omap (rglob_entry fs dir_path d) (listing pf (map fst (map_to_list fs)))
  | inl _ => []
  end.

Definition rglob (dir_path : Path) : M (list Path) :=
  fs <- get_fs;; ret (rglob_fs fs dir_path).

(** [s.replace(old, new)] where [new] is whatever the configuration
    holds: anything but a [str] is a [TypeError]. *)
Definition str_replace (s old : str) (new : pyval) : M str :=
  match new with
  | PStr v => ret (PyStr.replace s old v)
  | _ => raise TypeError
  end.

End calls.

(** ** The script *)

Definition NOT_FOUND_MSG : str :=
  lit "cumulusci.yml file not found in current directory".
Definition PARSE_MSG : str := lit "Error parsing cumulusci.yml".
Definition MISSING_MSG : str :=
  lit "Missing required configuration in cumulusci.yml".

Definition search_dirs : list str := [lit "force-app"; lit "unpackaged"].

Definition has_placeholder (s : str) : bool :=
  PyStr.contains TOKEN_NAME s || PyStr.contains TOKEN_LABEL s.

(** The two replacements of [update_file_content] and [rename_file] on
    strings. *)
Definition substitute (s project_name project_label : str) : str :=
  PyStr.replace (PyStr.replace s TOKEN_NAME project_name)
                TOKEN_LABEL project_label.

Section script.
Variable pf : platform.

Definition load_cumulusci_config : M pyval :=
  try_except
    (text <- open_read pf (path_of (lit "cumulusci.yml"));;
     match yaml_safe_load pf text with
     | Some config => ret config
     | None => raise YAMLError
     end)
    (λ e, match e with
          | FileNotFoundError => Some (raise FileNotFoundError)
          | YAMLError => Some (raise (ValueError PARSE_MSG))
          | _ => None
          end).

Definition get_project_values (config : pyval) : M (pyval * pyval) :=
  try_except
    (project <- lift (getitem config (lit "project"));;
     package <- lift (getitem project (lit "package"));;
     project_name <- lift (getitem package (lit "name"));;
     project' <- lift (getitem config (lit "project"));;
     package' <- lift (getitem project' (lit "package"));;
     project_label <- lift (getitem package' (lit "name_managed"));;
     ret (project_name, project_label))
    (λ e, match e with
          | KeyError _ => Some (raise (ValueError MISSING_MSG))
          | _ => None
          end).

Definition find_files_with_placeholders (root_dir : str) : M (list Path) :=
  let root_path := path_of root_dir in
  for_each search_dirs
    (λ files_to_update search_dir,
       let dir_path := truediv root_path search_dir in
       there <- exists_ pf dir_path;;
       if there : bool then
         entries <- rglob pf dir_path;;
         for_each entries
           (λ files_to_update file_path,
              regular <- is_file pf file_path;;
              if regular : bool then
                try_except
                  (content <- open_read pf file_path;;
                   if has_placeholder content
                   then ret (files_to_update ++ [file_path])
                   else ret files_to_update)
                  (λ e, if is_decode_or_permission e
                        then Some (ret files_to_update) else None)
              else ret files_to_update)
           files_to_update
       else ret files_to_update)
    [].

Definition find_files_with_placeholder_names (root_dir : str)
  : M (list Path) :=
  let root_path := path_of root_dir in
  for_each search_dirs
    (λ files_to_rename search_dir,
       let dir_path := truediv root_path search_dir in
       there <- exists_ pf dir_path;;
       if there : bool then
         entries <- rglob pf dir_path;;
         for_each entries
           (λ files_to_rename file_path,
              regular <- is_file pf file_path;;
              if regular : bool then
                if has_placeholder (name file_path)
                then ret (files_to_rename ++ [file_path])
                else ret files_to_rename
              else ret files_to_rename)
           files_to_rename
       else ret files_to_rename)
    [].

Definition update_file_content (file_path : Path)
    (project_name project_label : pyval) : M bool :=
  try_except
    (original_content <- open_read pf file_path;;
     content <- str_replace original_content TOKEN_NAME project_name;;
     content <- str_replace content TOKEN_LABEL project_label;;
     if bool_decide (content ≠ original_content) then
       open_write pf file_path content;;
       ret true
     else ret false)
    (λ e, if is_decode_or_permission e
          then Some (print (MsgWarnUpdate file_path e);; ret false)
          else None).

Definition rename_file (file_path : Path)
    (project_name project_label : pyval) : M Path :=
  new_name <- str_replace (name file_path) TOKEN_NAME project_name;;
  new_name <- str_replace new_name TOKEN_LABEL project_label;;
  if bool_decide (new_name ≠ name file_path) then
    let new_path := truediv (parent file_path) new_name in
    try_except
      (os_rename pf file_path new_path;;
       ret new_path)
      (λ e, if is_OSError e
            then Some (print (MsgWarnRename file_path new_path e);;
                       ret file_path)
            else None)
  else ret file_path.

(** The loading block of [main]: [None] stands for the [return 1] of
    its handler. *)
Definition load_block : M (option (pyval * pyval)) :=
  try_except
    (config <- load_cumulusci_config;;
     values <- get_project_values config;;
     print (MsgProjectName values.1);;
     print (MsgProjectLabel values.2);;
     ret (Some values))
    (λ e, Some (print (MsgErrorLoading e);; ret None)).

(** The loop over the content candidates. *)
Definition update_loop (files_to_update : list Path)
    (project_name project_label : pyval) : M nat :=
  for_each files_to_update
    (λ content_updated file_path,
       changed <- update_file_content file_path project_name project_label;;
       if changed : bool then
         print (MsgUpdated file_path);;
         ret (S content_updated)
       else ret content_updated)
    0.

(** The loop over the name candidates. *)
Definition rename_loop (files_to_rename : list Path)
    (project_name project_label : pyval) : M nat :=
  for_each files_to_rename
    (λ renamed file_path,
       new_path <- rename_file file_path project_name project_label;;
       if bool_decide (new_path ≠ file_path) then
         print (MsgRenamed (name file_path) (name new_path));;
         ret (S renamed)
       else ret renamed)
    0.

(** [main()]: the value returned is [1] or [None]. *)
Definition main : M (option Z) :=
  print MsgStarting;;
  loaded <- load_block;;
  match loaded with
  | None => ret (Some 1%Z)
  | Some (project_name, project_label) =>
      print MsgSearching;;
      files_to_update <- find_files_with_placeholders (lit ".");;
      files_to_rename <- find_files_with_placeholder_names (lit ".");;
      print (MsgFoundContent (length files_to_update));;
      print (MsgFoundNames (length files_to_rename));;
      print MsgUpdating;;
      content_updated <- update_loop files_to_update project_name project_label;;
      print MsgRenaming;;
      renamed <- rename_loop files_to_rename project_name project_label;;
      print MsgSummary;;
      print (MsgSummaryUpdated content_updated);;
      print (MsgSummaryRenamed renamed);;
      print MsgCompleted;;
      ret None
  end.

(** [exit(main())]: the exit status of the process and the world it
    leaves.  An exception that reaches the top ends the process with
    status 1. *)
Definition run (w : world) : Z * world :=
  match main w with
  | (Ok None, w') => (0%Z, w')
  | (Ok (Some code), w') => (code, w')
  | (Raise _, w') => (1%Z, w')
  end.

End script.

(** ** Vocabulary of the specification *)

(** [m] relates every world to the world it leaves, whatever it returns. *)
Definition sat {A} (R : world → world → Prop) (m : M A) : Prop :=
  ∀ w, R w (m w).2.

Definition is_rename (ev : event) : bool :=
  match ev with
  | EvRename _ _ => true
  | _ => false
  end.

Definition quiet (ev : event) : Prop := is_rename ev = false.
Definition moving (ev : event) : Prop := is_rename ev = true.

(** The trace grows by events that satisfy [P]. *)
Definition grows (P : event → Prop) (w w' : world) : Prop :=
  ∃ evs, w_trace w' = w_trace w ++ evs ∧ Forall P evs.

(** The trace grows by calls that are no renames, then by renames. *)
Definition two_phases (w w' : world) : Prop :=
  ∃ updates renames,
    w_trace w' = w_trace w ++ updates ++ renames
    ∧ Forall quiet updates ∧ Forall moving renames.

Definition add_event (w : world) (ev : event) : world :=
  World (w_fs w) (w_out w) (w_trace w ++ [ev]).

Definition add_msg (w : world) (m : message) : world :=
  World (w_fs w) (w_out w ++ [m]) (w_trace w).

Definition with_fs (w : world) (fs : filesystem) : world :=
  World fs (w_out w) (w_trace w).

(** The file system is left as it was. *)
Definition same_fs (w w' : world) : Prop := w_fs w' = w_fs w.

(** Everything but the trace is left as it was. *)
Definition only_trace (w w' : world) : Prop :=
  w_fs w' = w_fs w ∧ w_out w' = w_out w.

Definition both_str (v1 v2 : pyval) : bool :=
  match v1, v2 with
  | PStr _, PStr _ => true
  | _, _ => false
  end.

(** The candidates of the two scans, as functions of the file system. *)
Section candidates.
Variable pf : platform.

Definition search_paths : list Path :=
  map (truediv (path_of (lit "."))) search_dirs.

(** The entries the scans look at, in the order they are met. *)
Definition entries (fs : filesystem) : list Path :=
  flat_map (λ dir_path, if exists_fs pf fs dir_path
                        then rglob_fs pf fs dir_path else [])
           search_paths.

Definition content_match (fs : filesystem) (p : Path) : bool :=
  is_file_fs pf fs p &&
  match read_fs pf fs p with
  | inr c => has_placeholder c
  | inl _ => false
  end.

Definition name_match (fs : filesystem) (p : Path) : bool :=
  is_file_fs pf fs p && has_placeholder (name p).

Definition keep (sel : Path → bool) (p : Path) : list Path :=
  if sel p then [p] else [].

Definition content_candidates (fs : filesystem) : list Path :=
  flat_map (keep (content_match fs)) (entries fs).

Definition name_candidates (fs : filesystem) : list Path :=
  flat_map (keep (name_match fs)) (entries fs).
End candidates.

(** Two nodes of the same kind; two files with the same identity and the
    same faults (their data may differ). *)
Definition node_shape (a b : option node) : Prop :=
  match a, b with
  | Some (NFile f), Some (NFile f') =>
      f_ino f' = f_ino f ∧ f_read f' = f_read f
      ∧ f_write f' = f_write f ∧ f_move f' = f_move f
  | Some NDir, Some NDir => True
  | None, None => True
  | _, _ => False
  end.

Definition shape_fs (fs fs' : filesystem) : Prop :=
  ∀ k, node_shape (fs !! k) (fs' !! k).

Definition shape (w w' : world) : Prop := shape_fs (w_fs w) (w_fs w').

(** No file fails with an error other than a refusal of access when it is
    read or written. *)
Definition no_failing (fs : filesystem) : Prop :=
  ∀ k f, fs !! k = Some (NFile f) →
         f_read f ≠ Some Failing ∧ f_write f ≠ Some Failing.

(** The replacement values can stand in place of the tokens without
    forming a token with the text around them. *)
Definition safe_values (project_name project_label : str) : bool :=
  PyStr.overlap_free TOKEN_NAME project_name
  && PyStr.overlap_free TOKEN_NAME project_label
  && PyStr.overlap_free TOKEN_LABEL project_label.

(** What is found along a path of keys in a configuration. *)
Inductive lookup :=
| Found (v : pyval)
| Missing
| NotAMapping.

Fixpoint dig (v : pyval) (keys : list str) : lookup :=
  match keys with
  | [] => Found v
  | k :: ks =>
      match v with
      | PDict items =>
          match dict_get items k with
          | Some x => dig x ks
          | None => Missing
          end
      | _ => NotAMapping
      end
  end.

Definition NAME_KEY : list str := [lit "project"; lit "package"; lit "name"].
Definition LABEL_KEY : list str :=
  [lit "project"; lit "package"; lit "name_managed"].

Definition CONFIG_FILE : str := lit "cumulusci.yml".

(** ** Example worlds *)

Definition demo_config (project_name project_label : pyval) : pyval :=
  PDict [(lit "project",
          PDict [(lit "package",
                  PDict [(lit "name", project_name);
                         (lit "name_managed", project_label)])])].

(** A parser for the examples: it knows four documents. *)
Definition demo_yaml (text : str) : option pyval :=
  if bool_decide (text = lit "acme")
  then Some (demo_config (PStr (lit "Acme")) (PStr (lit "Acme-Label")))
  else if bool_decide (text = lit "swap")
  then Some (demo_config (PStr (lit "a")) (PStr TOKEN_NAME))
  else if bool_decide (text = lit "up")
  then Some (demo_config (PStr (lit "../stolen")) (PStr (lit "Acme-Label")))
  else if bool_decide (text = lit "")
  then Some PNone
  else None.

Definition demo_pf : platform := Platform [lit "repo"] true demo_yaml (λ l, l).

Definition plain_file (ino : nat) (c : content) : file :=
  File ino c None None None.

(** A project directory with its configuration file and [force-app]. *)
Definition demo_fs (config : str) (files : list (location * node))
  : filesystem :=
  list_to_map
    ([([], NDir);
      ([lit "repo"], NDir);
      ([lit "repo"; CONFIG_FILE], NFile (plain_file 1 (Text config)));
      ([lit "repo"; lit "force-app"], NDir)] ++ files).

Definition in_force_app (base : string) : location :=
  [lit "repo"; lit "force-app"; lit base].

Definition demo_world (config : str) (files : list (location * node))
  : world :=
  World (demo_fs config files) [] [].

Definition force_app_path (base : string) : Path :=
  MkPath false [lit "force-app"; lit base].

(** [no_failing], as a test. *)
Definition no_failingb (fs : filesystem) : bool :=
  forallb (λ kn : location * node,
             match kn.2 with
             | NFile f =>
                 match f_read f, f_write f with
                 | Some Failing, _ | _, Some Failing => false
                 | _, _ => true
                 end
             | NDir => true
             end)
          (map_to_list fs).

Definition ACME : str := lit "Acme".
Definition ACME_LABEL : str := lit "Acme-Label".

(** A text that holds a token, in a file that cannot be written because
    of a failure that is no refusal of access (a read-only file system). *)
Definition world_read_only : world :=
  demo_world (lit "acme")
    [(in_force_app "a.txt",
      NFile (File 2 (Text TOKEN_NAME) None (Some Failing) None));
     (in_force_app "b.txt", NFile (plain_file 3 (Text TOKEN_LABEL)))].

(** A file with a token in its name that may not be renamed. *)
Definition world_locked : world :=
  demo_world (lit "acme")
    [(in_force_app "__PROJECT_NAME__.cls",
      NFile (File 2 (Text TOKEN_NAME) None None (Some Denied)))].

(** A file whose bytes do not decode. *)
Definition world_binary : world :=
  demo_world (lit "acme")
    [(in_force_app "logo.bin", NFile (plain_file 2 (Binary [Byte.x80])))].

(** A configuration file that does not parse. *)
Definition world_bad_config : world :=
  demo_world (lit "project: [")
    [(in_force_app "a.txt", NFile (plain_file 2 (Text TOKEN_NAME)))].

(** The example of the specification. *)
Definition world_acme : world :=
  demo_world (lit "acme")
    [([lit "repo"; lit "force-app"; lit "classes"], NDir);
     ([lit "repo"; lit "force-app"; lit "classes";
       lit "__PROJECT_NAME__Controller.cls"],
      NFile (plain_file 2 (Text (lit
        "public class __PROJECT_NAME__Controller implements __PROJECT_LABEL__Interface"))))].

(** A configuration whose [project] entry is empty. *)
Definition config_null_project : pyval := PDict [(lit "project", PNone)].

(** The same locations hold directories. *)
Definition dirs_same (fs fs' : filesystem) : Prop :=
  ∀ k, fs !! k = Some NDir ↔ fs' !! k = Some NDir.

(** The stages of [main]. *)
Section stages.
Variable pf : platform.

Definition after_scan (w2 : world) (files_to_update files_to_rename : list Path)
  : world :=
  add_msg (add_msg (add_msg w2 (MsgFoundContent (length files_to_update)))
                   (MsgFoundNames (length files_to_rename)))
          MsgUpdating.

Definition after_renames (w5 : world) (content_updated renamed : nat) : world :=
  add_msg (add_msg (add_msg (add_msg w5 MsgSummary)
                            (MsgSummaryUpdated content_updated))
                   (MsgSummaryRenamed renamed))
          MsgCompleted.

(** How a run ends: the configuration is not loaded; the scan of the
    contents raises; an update raises; the renames are reached. *)
Inductive outcome (w : world) : result (option Z) → world → Prop :=
| out_not_loaded w1 :
    load_block pf (add_msg w MsgStarting) = (Ok None, w1) →
    outcome w (Ok (Some 1%Z)) w1
| out_scan_raised v1 v2 w1 e w2 :
    load_block pf (add_msg w MsgStarting) = (Ok (Some (v1, v2)), w1) →
    find_files_with_placeholders pf (lit ".") (add_msg w1 MsgSearching)
    = (Raise e, w2) →
    outcome w (Raise e) w2
| out_update_raised v1 v2 w1 w2 e w4 :
    load_block pf (add_msg w MsgStarting) = (Ok (Some (v1, v2)), w1) →
    find_files_with_placeholders pf (lit ".") (add_msg w1 MsgSearching)
    = (Ok (content_candidates pf (w_fs w)), w2) →
    update_loop pf (content_candidates pf (w_fs w)) v1 v2
      (after_scan w2 (content_candidates pf (w_fs w)) (name_candidates pf (w_fs w)))
    = (Raise e, w4) →
    outcome w (Raise e) w4
| out_renamed v1 v2 w1 w2 c w4 r w5 :
    load_block pf (add_msg w MsgStarting) = (Ok (Some (v1, v2)), w1) →
    find_files_with_placeholders pf (lit ".") (add_msg w1 MsgSearching)
    = (Ok (content_candidates pf (w_fs w)), w2) →
    update_loop pf (content_candidates pf (w_fs w)) v1 v2
      (after_scan w2 (content_candidates pf (w_fs w)) (name_candidates pf (w_fs w)))
    = (Ok c, w4) →
    rename_loop pf (name_candidates pf (w_fs w)) v1 v2 (add_msg w4 MsgRenaming)
    = (r, w5) →
    outcome w
      match r with Ok _ => Ok None | Raise e => Raise e end
      match r with Ok n => after_renames w5 c n | Raise _ => w5 end.
End stages.

(** A rename of one of [files]. *)
Definition renames_of (files : list Path) (ev : event) : Prop :=
  ∃ p q, ev = EvRename p q ∧ p ∈ files.

(** A directory with a token in its name, and a file in it. *)
Definition world_token_dir : world :=
  demo_world (lit "acme")
    [(in_force_app "__PROJECT_NAME__", NDir);
     ([lit "repo"; lit "force-app"; lit "__PROJECT_NAME__"; lit "__PROJECT_LABEL__.txt"],
      NFile (plain_file 2 (Text TOKEN_NAME)))].

(** A name a directory entry can have. *)
Definition proper_name (c : str) : bool :=
  negb (bool_decide (c = [])) && negb (bool_decide (c = lit "."))
  && negb (bool_decide (c = DOTDOT)) && negb (bool_decide (SLASH ∈ c)).

(** Every entry of the file system has proper names on its way. *)
Definition wf_names (fs : filesystem) : bool :=
  forallb (λ kn : location * node, forallb proper_name kn.1) (map_to_list fs).

(** The identities of the regular files. *)
Definition inos (fs : filesystem) : list nat :=
  omap (λ kn : location * node,
          match kn.2 with
          | NFile f => Some (f_ino f)
          | NDir => None
          end)
       (map_to_list fs).

(** No two entries are the same file (there are no hard links). *)
Definition unique_inos (fs : filesystem) : Prop := NoDup (inos fs).

(** A location below one of the two searched directories. *)
Definition searchedb (pf : platform) (k : location) : bool :=
  match strip (cwd pf) k with
  | Some (d :: _ :: _) => bool_decide (d ∈ search_dirs)
  | _ => false
  end.

Definition searched (pf : platform) (k : location) : Prop :=
  searchedb pf k = true.

(** A configured value that, if it is a string, holds no separator. *)
Definition slash_free (v : pyval) : Prop :=
  match v with
  | PStr s => SLASH ∉ s
  | _ => True
  end.

(** Every file of [fs'] is a file of [fs], with its data unless they were
    a text. *)
Definition kept (fs fs' : filesystem) : Prop :=
  ∀ q f', fs' !! q = Some (NFile f') →
          ∃ k f, fs !! k = Some (NFile f) ∧ f_ino f' = f_ino f
                 ∧ (f' = f ∨ ∃ c, f_data f = Text c).

(** Every file of [fs'] is a file of [fs], somewhere. *)
Definition moved (fs fs' : filesystem) : Prop :=
  ∀ q f', fs' !! q = Some (NFile f') → ∃ k, fs !! k = Some (NFile f').

(** The locations that are not searched hold what they held. *)
Definition outside_same (pf : platform) (fs fs' : filesystem) : Prop :=
  ∀ k, ¬ searched pf k → fs' !! k = fs !! k.

(** The enumeration of a directory tree gives its entries, all of them
    and nothing else. *)
Definition faithful_listing (pf : platform) : Prop :=
  ∀ ks x, x ∈ listing pf ks ↔ x ∈ ks.

(** A file that does not decode, with a token in its name. *)
Definition world_binary_named : world :=
  demo_world (lit "acme")
    [(in_force_app "__PROJECT_NAME__.bin",
      NFile (plain_file 2 (Binary [Byte.x80])))].

(** Two files of bytes; the name of the second becomes the name of the
    first. *)
Definition world_clash : world :=
  demo_world (lit "acme")
    [(in_force_app "Acme.bin", NFile (plain_file 2 (Binary [Byte.x80])));
     (in_force_app "__PROJECT_NAME__.bin",
      NFile (plain_file 3 (Binary [Byte.x81])))].

(** A configured name that leads out of the searched directory, and a
    file next to the configuration file. *)
Definition world_escape : world :=
  demo_world (lit "up")
    [([lit "repo"; lit "stolen.txt"], NFile (plain_file 5 (Text (lit "keep me"))));
     (in_force_app "__PROJECT_NAME__.txt", NFile (plain_file 2 (Text (lit "x"))))].

(** The directories are where they were and the locations that are not
    searched hold what they held. *)
Definition framed (pf : platform) (fs fs' : filesystem) : Prop :=
  dirs_same fs fs' ∧ outside_same pf fs fs'.

(** A text with a token next to the configuration file. *)
Definition world_outside : world :=
  demo_world (lit "acme")
    [([lit "repo"; lit "README.md"], NFile (plain_file 5 (Text TOKEN_NAME)));
     (in_force_app "__PROJECT_NAME__.txt", NFile (plain_file 2 (Text TOKEN_NAME)));
     (in_force_app "logo.bin", NFile (plain_file 3 (Binary [Byte.x80])))].

(** The file rewritten by an update. *)
Definition rewritten (f : file) (c n l : str) : file :=
  set_data f (Text (substitute c n l)).

(** The label token in a text, under a configuration whose label is the
    name token. *)
Definition world_swap : world :=
  demo_world (lit "swap")
    [(in_force_app "a.txt", NFile (plain_file 2 (Text TOKEN_LABEL)))].

(** ** Vocabulary of the further properties *)

(** The output grows by lines that satisfy [P]. *)
Definition prints (P : message → Prop) (w w' : world) : Prop :=
  ∃ ms, w_out w' = w_out w ++ ms ∧ Forall P ms.

Definition is_updated (m : message) : bool :=
  match m with
  | MsgUpdated _ => true
  | _ => false
  end.

Definition is_renamed (m : message) : bool :=
  match m with
  | MsgRenamed _ _ => true
  | _ => false
  end.

Definition not_updated (m : message) : Prop := is_updated m = false.
Definition not_renamed (m : message) : Prop := is_renamed m = false.
Definition not_completed (m : message) : Prop := m ≠ MsgCompleted.

(** An error of the operating system that [update_file_content] does
    not catch. *)
Definition uncaught_os_error (e : exn) : Prop :=
  is_OSError e = true ∧ e ≠ PermissionError.

(** A read. *)
Definition reading (ev : event) : Prop := ∃ p, ev = EvRead p.

(** The platform of the examples, with the renames of Windows. *)
Definition demo_pf_windows : platform :=
  Platform [lit "repo"] false demo_yaml (λ l, l).

(** * Properties *)

Local Open Scope py_scope.

Module PyStrFacts.
Import PyStr.
Section facts.
Context {A : Type} `{EqDecision A}.
Implicit Types s r old new sub t v x : list A.

Lemma startswith_prefix s sub : startswith s sub = true ↔ sub `prefix_of` s.
Proof.
  revert s. induction sub as [|a sub IH]; intros s; simpl.
  - split; [intros _; apply prefix_nil | done].
  - destruct s as [|b s].
    + split; [done | intros Hp; by apply prefix_nil_inv in Hp].
    + rewrite andb_true_iff, bool_decide_eq_true, IH. split.
      * intros [-> Hp]. by apply prefix_cons.
      * intros Hp. split; [by apply prefix_cons_inv_1 in Hp | by apply prefix_cons_inv_2 in Hp].
Qed.

Lemma startswith_false s sub : startswith s sub = false ↔ ¬ sub `prefix_of` s.
Proof. rewrite <- startswith_prefix. destruct (startswith s sub); naive_solver. Qed.

Lemma infix_nil_r sub : infix sub [] → sub = [].
Proof.
  intros (a & b & Heq). symmetry in Heq.
  apply app_eq_nil in Heq as [_ Heq]. by apply app_eq_nil in Heq as [-> _].
Qed.

Lemma infix_cons sub c s : infix sub (c :: s) ↔ sub `prefix_of` (c :: s) ∨ infix sub s.
Proof.
  split.
  - intros (a & b & Heq). destruct a as [|a0 a]; simpl in Heq.
    + left. by exists b.
    + right. injection Heq as -> ->. by exists a, b.
  - intros [[b Hb] | (a & b & ->)].
    + exists [], b. by rewrite Hb.
    + by exists (c :: a), b.
Qed.

Lemma contains_infix sub s : contains sub s = true ↔ infix sub s.
Proof.
  induction s as [|c s IH]; simpl.
  - rewrite orb_false_r, startswith_prefix. split.
    + intros [k Hk]. by exists [], k.
    + intros Hi. apply infix_nil_r in Hi as ->. apply prefix_nil.
  - rewrite orb_true_iff, IH, infix_cons. by rewrite (startswith_prefix (c :: s)).
Qed.

Lemma infix_prefix sub s : sub `prefix_of` s → infix sub s.
Proof. intros [k ->]. by exists [], k. Qed.

Lemma infix_app_r sub a s : infix sub s → infix sub (a ++ s).
Proof. intros (a' & b & ->). exists (a ++ a'), b. by rewrite <- app_assoc. Qed.

Lemma infix_suffix sub s s' : s' `suffix_of` s → infix sub s' → infix sub s.
Proof. intros [k ->]. apply infix_app_r. Qed.

(** The scan computes the relation. *)
Lemma replace_from_replaced old new n s :
  old ≠ [] → length s ≤ n → replaced old new s (replace_from n old new s).
Proof.
  intros Hold. revert s. induction n as [|n IH]; intros s Hn.
  - destruct s; [constructor | simpl in Hn; lia].
  - destruct s as [|c s]; [constructor|].
    cbn [replace_from]. destruct (startswith (c :: s) old) eqn:Hsw.
    + apply startswith_prefix in Hsw as [k Hk].
      rewrite Hk at 1. rewrite Hk, drop_app_length. constructor. apply IH.
      apply (f_equal length) in Hk. rewrite length_app in Hk. simpl in *.
      destruct old; [done | simpl in *; lia].
    + constructor; [done|]. apply IH. simpl in Hn. lia.
Qed.

Lemma replace_replaced old new s :
  old ≠ [] → replaced old new s (replace s old new).
Proof.
  intros Hold. unfold replace. destruct old as [|a old]; [done|].
  by apply replace_from_replaced.
Qed.

(** Without an occurrence nothing changes. *)
Lemma replaced_absent old new s r :
  replaced old new s r → ¬ infix old s → r = s.
Proof.
  induction 1 as [|s r Hr IH|c s r Hsw Hr IH]; intros Hno; [done| |].
  - destruct Hno. by exists [], s.
  - f_equal. apply IH. intros Hi. apply Hno, infix_cons. by right.
Qed.

Lemma replace_absent old new s :
  old ≠ [] → ¬ infix old s → replace s old new = s.
Proof. intros Hold Hno. eapply replaced_absent; [by apply replace_replaced | done]. Qed.

(** The copies of [old] and of [new] sit between the same pieces. *)
Lemma replaced_pieces old new s r :
  old ≠ [] →
  replaced old new s r →
  ∃ pieces, s = join old pieces ∧ r = join new pieces
          ∧ Forall (λ p, ¬ infix old p) pieces
          ∧ (s = [] ∧ pieces = [] ∨ pieces ≠ []).
Proof.
  intros Hold. induction 1 as [|s r Hr IH|c s r Hsw Hr IH].
  - exists []. naive_solver.
  - destruct IH as (ps & -> & -> & Hall & Hsh).
    destruct ps as [|p ps].
    + exists [[]; []]. simpl. rewrite !app_nil_r. split_and!; [done..| |by right].
      repeat constructor; intros Hi; apply infix_nil_r in Hi; done.
    + exists ([] :: p :: ps). split_and!; [done..| |by right].
      constructor; [|done]. intros Hi. by apply infix_nil_r in Hi.
  - destruct IH as (ps & -> & -> & Hall & Hsh).
    apply startswith_false in Hsw.
    destruct ps as [|p ps].
    + exists [[c]]. split_and!; [done..| |by right].
      constructor; [|done]. intros Hi. apply infix_cons in Hi as [Hi|Hi]; [done|].
      apply infix_nil_r in Hi. done.
    + exists ((c :: p) :: ps). apply Forall_cons in Hall as [Hp Hall].
      split_and!; [by destruct ps..| |by right].
      constructor; [|done]. intros Hi. apply infix_cons in Hi as [Hi|Hi]; [|done].
      apply Hsw. destruct Hi as [k Hk]. destruct ps as [|q ps]; simpl.
      * by exists k.
      * exists (k ++ old ++ join old (q :: ps)). rewrite app_comm_cons, Hk.
        by rewrite <- !app_assoc.
Qed.

Lemma border_spec x y :
  border x y = true ↔ ∃ w, w ≠ [] ∧ w `prefix_of` x ∧ w `suffix_of` y.
Proof.
  unfold border. rewrite existsb_exists. split.
  - intros (n & Hn & Heq). apply in_seq in Hn. apply bool_decide_eq_true in Heq.
    exists (take n x). split_and!.
    + intros Hnil. apply (f_equal length) in Hnil. rewrite length_take in Hnil.
      simpl in Hnil. lia.
    + apply prefix_take.
    + rewrite Heq. apply suffix_drop.
  - intros (w & Hw & [k ->] & [k' ->]). exists (length w). split.
    + apply in_seq. rewrite !length_app. destruct w; [done | cbn [length]; lia].
    + apply bool_decide_eq_true. rewrite take_app_length.
      rewrite length_app. replace (length k' + length w - length w) with (length k') by lia.
      by rewrite drop_app_length.
Qed.

Lemma overlap_free_spec t v : overlap_free t v = true → OverlapFree t v.
Proof.
  unfold overlap_free. rewrite !andb_true_iff, !negb_true_iff.
  intros [[[H1 H2] H3] H4]. split.
  - rewrite <- contains_infix. by rewrite H1.
  - rewrite <- contains_infix. by rewrite H2.
  - intros w Hw Hp Hs. assert (border v t = true) as Hb; [|by rewrite H3 in Hb].
    apply border_spec. eauto.
  - intros w Hw Hs Hp. assert (border t v = true) as Hb; [|by rewrite H4 in Hb].
    apply border_spec. eauto.
Qed.

Lemma OverlapFree_nonempty t v : OverlapFree t v → v ≠ [].
Proof. intros [Hin _ _ _] ->. apply Hin. by exists [], t. Qed.

(** Two prefixes of one list: one is a prefix of the other. *)
Lemma prefix_app_cases x a b :
  x `prefix_of` a ++ b → x `prefix_of` a ∨ ∃ x', x = a ++ x' ∧ x' `prefix_of` b.
Proof.
  revert x. induction a as [|c a IH]; intros x Hx; simpl in *.
  - right. by exists x.
  - destruct x as [|d x]; [left; apply prefix_nil|].
    pose proof (prefix_cons_inv_1 _ _ _ _ Hx) as ->.
    apply prefix_cons_inv_2 in Hx. destruct (IH _ Hx) as [Hp | (x' & -> & Hp)].
    + left. by apply prefix_cons.
    + right. by exists x'.
Qed.

Lemma suffix_cons_cases x c b :
  x `suffix_of` c :: b → x = c :: b ∨ x `suffix_of` b.
Proof.
  destruct x as [|d x]; [right; apply suffix_nil|]. apply suffix_cons_inv.
Qed.

Lemma suffix_app_cases x a b :
  x `suffix_of` a ++ b → (∃ k, x = k ++ b ∧ k `suffix_of` a) ∨ x `suffix_of` b.
Proof.
  induction a as [|c a IH]; intros Hx; simpl in *; [by right|].
  destruct x as [|d x]; [right; apply suffix_nil|].
  apply suffix_cons_inv in Hx as [Heq | Hx].
  - left. exists (c :: a). by rewrite Heq.
  - destruct (IH Hx) as [(k & Hk & Hs) | Hs]; [left | by right].
    exists k. split; [done | by apply suffix_cons_r].
Qed.

(** A part of [x] that starts the output started the input already,
    when [new] cannot overlap [x]. *)
Lemma replaced_prefix_back old new x s r :
  replaced old new s r →
  OverlapFree x new →
  ∀ x', x' `suffix_of` x → x' `prefix_of` r → x' `prefix_of` s.
Proof.
  intros Hr Hof. induction Hr as [|s r Hr IH|c s r Hsw Hr IH]; intros x' Hsuf Hpre.
  - done.
  - destruct x' as [|d x']; [apply prefix_nil|]. exfalso.
    apply prefix_app_cases in Hpre as [Hp | (y & Hy & Hp)].
    + by apply (of_no_head _ _ Hof (d :: x')).
    + apply (of_not_inside _ _ Hof). destruct Hsuf as [k ->].
      exists k, y. by rewrite Hy.
  - destruct x' as [|d x']; [apply prefix_nil|].
    pose proof (prefix_cons_inv_1 _ _ _ _ Hpre) as ->.
    apply prefix_cons, IH; [|by apply prefix_cons_inv_2 in Hpre].
    destruct Hsuf as [k ->]. exists (k ++ [c]). by rewrite <- app_assoc.
Qed.

(** The output does not start with [old]. *)
Lemma replaced_not_prefix old new s r :
  old ≠ [] → replaced old new s r → OverlapFree old new → ¬ old `prefix_of` r.
Proof.
  intros Hold Hr Hof Hpre. inversion Hr as [|s' r' Hr' Hs Hr2|c s' r' Hsw Hr' Hs Hr2]; subst.
  - by apply prefix_nil_inv in Hpre.
  - apply prefix_app_cases in Hpre as [Hp | (y & Hy & Hp)].
    + apply (of_not_around _ _ Hof). by apply infix_prefix.
    + apply (of_not_inside _ _ Hof). exists [], y. by rewrite Hy.
  - apply startswith_false in Hsw. apply Hsw.
    by eapply replaced_prefix_back.
Qed.

(** What a suffix of the output looks like. *)
Lemma replaced_suffix old new s r r' :
  replaced old new s r → r' `suffix_of` r →
  (∃ s', s' `suffix_of` s ∧ replaced old new s' r') ∨
  (∃ v2 r1 s1, v2 ≠ [] ∧ v2 `suffix_of` new ∧ r' = v2 ++ r1
               ∧ s1 `suffix_of` s ∧ replaced old new s1 r1).
Proof.
  intros Hr. revert r'. induction Hr as [|s r Hr IH|c s r Hsw Hr IH]; intros r' Hsuf.
  - apply suffix_nil_inv in Hsuf as ->. left. exists []. split; [done | constructor].
  - apply suffix_app_cases in Hsuf as [(k & -> & Hk) | Hsuf].
    + destruct (decide (k = [])) as [-> | Hne].
      * destruct (IH r) as [(s' & Hs' & Hr') | (v2 & r1 & s1 & ? & ? & ? & Hs1 & ?)]; [done | |].
        -- left. exists s'. split; [by apply suffix_app_r | done].
        -- right. exists v2, r1, s1. split_and!; [done..|by apply suffix_app_r|done].
      * right. exists k, r, s. split_and!; [done..| by apply suffix_app_r |done].
    + destruct (IH r' Hsuf) as [(s' & Hs' & Hr') | (v2 & r1 & s1 & ? & ? & ? & Hs1 & ?)].
      * left. exists s'. split; [by apply suffix_app_r | done].
      * right. exists v2, r1, s1. split_and!; [done..|by apply suffix_app_r|done].
  - apply suffix_cons_cases in Hsuf as [-> | Hsuf].
    + left. exists (c :: s). split; [done | by constructor].
    + destruct (IH r' Hsuf) as [(s' & Hs' & Hr') | (v2 & r1 & s1 & ? & ? & ? & Hs1 & ?)].
      * left. exists s'. split; [by apply suffix_cons_r | done].
      * right. exists v2, r1, s1. split_and!; [done..|by apply suffix_cons_r|done].
Qed.

(** An occurrence of [x] in the output was in the input, when [new]
    cannot overlap [x]. *)
Lemma replaced_infix_back old new x s r :
  replaced old new s r → OverlapFree x new → infix x r → infix x s.
Proof.
  intros Hr Hof (a & b & ->).
  destruct (replaced_suffix old new s (a ++ x ++ b) (x ++ b) Hr)
    as [(s' & Hs' & Hr') | (v2 & r1 & s1 & Hv2 & Hsuf & Heq & Hs1 & Hr1)].
  { by apply suffix_app_r. }
  - apply (infix_suffix _ _ _ Hs'), infix_prefix.
    eapply replaced_prefix_back; [done.. | by exists b].
  - exfalso. assert (x `prefix_of` v2 ++ r1) as Hp by (rewrite <- Heq; by exists b).
    apply prefix_app_cases in Hp as [Hp | (y & Hy & Hp)].
    + apply (of_not_around _ _ Hof). apply (infix_suffix _ _ _ Hsuf), infix_prefix, Hp.
    + apply (of_no_tail _ _ Hof v2); [done.. | by exists y].
Qed.

(** No occurrence of [old] is left, when [new] cannot overlap it. *)
Lemma replaced_no_old old new s r :
  old ≠ [] → replaced old new s r → OverlapFree old new → ¬ infix old r.
Proof.
  intros Hold Hr Hof (a & b & ->).
  destruct (replaced_suffix old new s (a ++ old ++ b) (old ++ b) Hr)
    as [(s' & Hs' & Hr') | (v2 & r1 & s1 & Hv2 & Hsuf & Heq & Hs1 & Hr1)].
  { by apply suffix_app_r. }
  - eapply replaced_not_prefix; [done.. | by exists b].
  - assert (old `prefix_of` v2 ++ r1) as Hp by (rewrite <- Heq; by exists b).
    apply prefix_app_cases in Hp as [Hp | (y & Hy & Hp)].
    + apply (of_not_around _ _ Hof). apply (infix_suffix _ _ _ Hsuf), infix_prefix, Hp.
    + apply (of_no_tail _ _ Hof v2); [done.. | by exists y].
Qed.

Lemma replace_no_old old new s :
  old ≠ [] → OverlapFree old new → ¬ infix old (replace s old new).
Proof. intros. eapply replaced_no_old; [done | by apply replace_replaced | done]. Qed.

Lemma replace_infix_back old new x s :
  old ≠ [] → OverlapFree x new → infix x (replace s old new) → infix x s.
Proof. intros. eapply replaced_infix_back; [by apply replace_replaced | done..]. Qed.

(** The pieces between the occurrences: [s.split(old)]. *)
Lemma replace_from_pieces old new n s :
  old ≠ [] → length s ≤ n →
  ∃ pieces, s = join old pieces
          ∧ replace_from n old new s = join new pieces
          ∧ length pieces = S (count_from n old s)
          ∧ Forall (λ p, ¬ infix old p) pieces.
Proof.
  intros Hold. revert s. induction n as [|n IH]; intros s Hn.
  - destruct s; [|simpl in Hn; lia]. exists [[]]. split_and!; [done..|].
    repeat constructor. intros Hi. by apply infix_nil_r in Hi.
  - destruct s as [|c s].
    { exists [[]]. split_and!; [done..|].
      repeat constructor. intros Hi. by apply infix_nil_r in Hi. }
    cbn [replace_from count_from]. destruct (startswith (c :: s) old) eqn:Hsw.
    + apply startswith_prefix in Hsw as [k Hk]. rewrite Hk, drop_app_length.
      destruct (IH k) as (ps & Hs & Hr & Hlen & Hall).
      { apply (f_equal length) in Hk. rewrite length_app in Hk. simpl in *.
        destruct old; [done | simpl in *; lia]. }
      exists ([] :: ps). destruct ps as [|p ps]; [done|].
      split_and!; [by rewrite Hs at 1 | by rewrite Hr | by rewrite <- Hlen |].
      constructor; [|done]. intros Hi. by apply infix_nil_r in Hi.
    + destruct (IH s) as (ps & Hs & Hr & Hlen & Hall); [simpl in Hn; lia|].
      apply startswith_false in Hsw.
      destruct ps as [|p ps]; [done|]. exists ((c :: p) :: ps).
      apply Forall_cons in Hall as [Hp Hall].
      split_and!; [by destruct ps; rewrite Hs at 1 | by destruct ps; rewrite Hr | done |].
      constructor; [|done]. intros Hi. apply infix_cons in Hi as [Hi|Hi]; [|done].
      apply Hsw. destruct Hi as [k Hk]. rewrite Hs. destruct ps as [|q ps]; simpl.
      * by exists k.
      * exists (k ++ old ++ join old (q :: ps)). rewrite app_comm_cons, Hk.
        by rewrite <- !app_assoc.
Qed.

Lemma replace_pieces old new s :
  old ≠ [] →
  ∃ pieces, s = join old pieces
          ∧ replace s old new = join new pieces
          ∧ length pieces = S (count s old)
          ∧ Forall (λ p, ¬ infix old p) pieces.
Proof.
  intros Hold. unfold replace, count. destruct old as [|a old]; [done|].
  by apply replace_from_pieces.
Qed.
End facts.
End PyStrFacts.

Import PyStrFacts.

Section rules.
Context {A B : Type}.
Implicit Types R : world → world → Prop.

Lemma sat_bind R1 R2 R3 (m : M A) (k : A → M B) :
  (∀ w1 w2, R1 w1 w2 → R3 w1 w2) →
  (∀ w1 w2 w3, R1 w1 w2 → R2 w2 w3 → R3 w1 w3) →
  sat R1 m → (∀ a, sat R2 (k a)) → sat R3 (bind m k).
Proof.
  intros Hsub Hcomp Hm Hk w. unfold bind. specialize (Hm w).
  destruct (m w) as [[a|e] w1]; simpl in *.
  - eapply Hcomp; [done | apply Hk].
  - by apply Hsub.
Qed.

Lemma sat_try R (m : M A) handler :
  (∀ w1 w2 w3, R w1 w2 → R w2 w3 → R w1 w3) →
  sat R m → (∀ e h, handler e = Some h → sat R h) → sat R (try_except m handler).
Proof.
  intros Htrans Hm Hh w. unfold try_except. specialize (Hm w).
  destruct (m w) as [[a|e] w1]; simpl in *; [done|].
  destruct (handler e) as [h|] eqn:He; [|done].
  eapply Htrans; [done | by eapply Hh].
Qed.
End rules.

Section pre.
Context (R : world → world → Prop) `{!PreOrder R}.

Lemma sat_ret {A} (a : A) : sat R (ret a).
Proof. intros w. reflexivity. Qed.

Lemma sat_raise {A} e : sat R (raise (A:=A) e).
Proof. intros w. reflexivity. Qed.

Lemma sat_lift {A} (r : exn + A) : sat R (lift r).
Proof. destruct r; [apply sat_raise | apply sat_ret]. Qed.

Lemma sat_seq {A B} (m : M A) (k : A → M B) :
  sat R m → (∀ a, sat R (k a)) → sat R (bind m k).
Proof. apply sat_bind; [done | intros; by etrans]. Qed.

Lemma sat_catch {A} (m : M A) handler :
  sat R m → (∀ e h, handler e = Some h → sat R h) → sat R (try_except m handler).
Proof. apply sat_try. intros; by etrans. Qed.

Lemma sat_for_each_in {X S} (xs : list X) (body : S → X → M S) acc :
  (∀ acc x, x ∈ xs → sat R (body acc x)) → sat R (for_each xs body acc).
Proof.
  revert acc. induction xs as [|x xs IH]; intros acc Hb; simpl.
  - apply sat_ret.
  - apply sat_seq; [apply Hb; by left|].
    intros acc'. apply IH. intros ? ? ?. apply Hb. by right.
Qed.

Lemma sat_for_each {X S} (xs : list X) (body : S → X → M S) acc :
  (∀ acc x, sat R (body acc x)) → sat R (for_each xs body acc).
Proof. intros Hb. apply sat_for_each_in. auto. Qed.
End pre.

(** Breaking a computation of the script into its calls. *)
Ltac sat_handler :=
  let e := fresh "e" in let h := fresh "h" in let Hh := fresh "Hh" in
  intros e h Hh; simpl in Hh; repeat case_match; simplify_eq.

Create HintDb sat discriminated.

Ltac sat_split :=
  repeat first
    [ solve [auto with sat]
    | apply sat_ret; apply _ | apply sat_raise; apply _ | apply sat_lift; apply _
    | apply sat_seq; [apply _| |intros ?]
    | apply sat_catch; [apply _| |sat_handler]
    | apply sat_for_each; [apply _|intros ? ?]
    | match goal with
      | |- sat _ (if ?b then _ else _) => destruct b
      | |- sat _ (match ?x with _ => _ end) => destruct x
      end ].

(** ** The order of the file-system calls *)

Global Instance grows_preorder P : PreOrder (grows P).
Proof.
  split.
  - intros w. exists []. by rewrite app_nil_r.
  - intros w1 w2 w3 (e1 & H1 & F1) (e2 & H2 & F2). exists (e1 ++ e2).
    rewrite H2, H1, <- app_assoc. split; [done | by apply Forall_app].
Qed.

Section trace.
Variable pf : platform.
Variable P : event → Prop.

Lemma grows_print msg : sat (grows P) (print msg).
Proof. intros w. exists []. by rewrite app_nil_r. Qed.

Lemma grows_log ev : P ev → sat (grows P) (log ev).
Proof. intros Hev w. exists [ev]. split; [done | by constructor]. Qed.

Lemma grows_get_fs : sat (grows P) get_fs.
Proof. intros w. reflexivity. Qed.

Lemma grows_set_fs fs : sat (grows P) (set_fs fs).
Proof. intros w. exists []. by rewrite app_nil_r. Qed.

Lemma grows_open_read p : P (EvRead p) → sat (grows P) (open_read pf p).
Proof.
  intros Hp. unfold open_read. sat_split; auto using grows_log, grows_get_fs.
Qed.

Lemma grows_open_write p s : P (EvWrite p) → sat (grows P) (open_write pf p s).
Proof.
  intros Hp. unfold open_write.
  sat_split; auto using grows_log, grows_get_fs, grows_set_fs.
Qed.

Lemma grows_os_rename p q : P (EvRename p q) → sat (grows P) (os_rename pf p q).
Proof.
  intros Hp. unfold os_rename.
  sat_split; auto using grows_log, grows_get_fs, grows_set_fs.
Qed.

Lemma grows_exists p : sat (grows P) (exists_ pf p).
Proof. unfold exists_. sat_split; apply grows_get_fs. Qed.

Lemma grows_is_file p : sat (grows P) (is_file pf p).
Proof. unfold is_file. sat_split; apply grows_get_fs. Qed.

Lemma grows_rglob p : sat (grows P) (rglob pf p).
Proof. unfold rglob. sat_split; apply grows_get_fs. Qed.

Lemma grows_str_replace s old new : sat (grows P) (str_replace s old new).
Proof. unfold str_replace. sat_split. Qed.
End trace.

#[export] Hint Resolve grows_print grows_log grows_get_fs grows_set_fs
  grows_open_read grows_open_write grows_os_rename grows_exists grows_is_file
  grows_rglob grows_str_replace : sat.
#[export] Hint Extern 1 (quiet _) => reflexivity : sat.
#[export] Hint Extern 1 (moving _) => reflexivity : sat.

Section order.
Variable pf : platform.

Lemma load_block_quiet : sat (grows quiet) (load_block pf).
Proof.
  unfold load_block, load_cumulusci_config, get_project_values.
  sat_split.
Qed.

Lemma find_files_with_placeholders_quiet root :
  sat (grows quiet) (find_files_with_placeholders pf root).
Proof.
  unfold find_files_with_placeholders.
  sat_split.
Qed.

Lemma find_files_with_placeholder_names_quiet root :
  sat (grows quiet) (find_files_with_placeholder_names pf root).
Proof.
  unfold find_files_with_placeholder_names.
  sat_split.
Qed.

Lemma update_loop_quiet files n l : sat (grows quiet) (update_loop pf files n l).
Proof.
  unfold update_loop, update_file_content.
  sat_split.
Qed.

Lemma rename_loop_moving files n l : sat (grows moving) (rename_loop pf files n l).
Proof.
  unfold rename_loop, rename_file.
  sat_split.
Qed.
End order.

Section two_phases.
Variable pf : platform.

Lemma quiet_two_phases w1 w2 : grows quiet w1 w2 → two_phases w1 w2.
Proof.
  intros (evs & Ht & Hq). exists evs, []. by rewrite app_nil_r.
Qed.

Lemma moving_two_phases w1 w2 : grows moving w1 w2 → two_phases w1 w2.
Proof. intros (evs & Ht & Hq). by exists [], evs. Qed.

Lemma quiet_then_two_phases w1 w2 w3 :
  grows quiet w1 w2 → two_phases w2 w3 → two_phases w1 w3.
Proof.
  intros (evs & Ht & Hq) (a & b & Ht' & Ha & Hb). exists (evs ++ a), b.
  rewrite Ht', Ht, <- !app_assoc. split_and!; [done | by apply Forall_app | done].
Qed.

Lemma sat_quiet_first {A B} (m : M A) (k : A → M B) :
  sat (grows quiet) m → (∀ a, sat two_phases (k a)) → sat two_phases (bind m k).
Proof.
  apply sat_bind; [apply quiet_two_phases | apply quiet_then_two_phases].
Qed.

Lemma sat_moving {A} (m : M A) : sat (grows moving) m → sat two_phases m.
Proof. intros Hm w. apply moving_two_phases, Hm. Qed.

Lemma main_two_phases : sat two_phases (main pf).
Proof.
  unfold main.
  apply sat_quiet_first; [sat_split|intros _].
  apply sat_quiet_first; [apply load_block_quiet|intros [[n l]|]].
  2:{ apply sat_moving. sat_split. }
  apply sat_quiet_first; [sat_split|intros _].
  apply sat_quiet_first; [apply find_files_with_placeholders_quiet|intros files_to_update].
  apply sat_quiet_first; [apply find_files_with_placeholder_names_quiet|intros files_to_rename].
  do 3 (apply sat_quiet_first; [sat_split|intros _]).
  apply sat_quiet_first; [apply update_loop_quiet|intros content_updated].
  apply sat_quiet_first; [sat_split|intros _].
  apply sat_moving. apply sat_seq; [apply _|apply rename_loop_moving|intros renamed].
  sat_split.
Qed.

Lemma run_world w : (run pf w).2 = (main pf w).2.
Proof. unfold run. by destruct (main pf w) as [[[c|]|e] w']. Qed.
End two_phases.

Global Instance same_fs_preorder : PreOrder same_fs.
Proof. split; [done | intros w1 w2 w3 H1 H2; unfold same_fs in *; congruence]. Qed.

Global Instance only_trace_preorder : PreOrder only_trace.
Proof.
  split; [done|].
  intros w1 w2 w3 [H1 H1'] [H2 H2']. unfold only_trace. split; congruence.
Qed.

Global Arguments PyStr.replace : simpl never.
Global Arguments substitute : simpl never.
Global Arguments read_fs : simpl never.
Global Arguments write_fs : simpl never.
Global Arguments rename_fs : simpl never.
Global Arguments truediv : simpl never.
Global Arguments parent : simpl never.
Global Arguments name : simpl never.
Global Arguments has_placeholder : simpl never.
Global Arguments lit : simpl never.
Global Arguments path_of : simpl never.

Section explicit.
Variable pf : platform.

Lemma walk_error fs cur comps e :
  walk fs cur comps = inl e → e = NotADirectoryError ∨ e = FileNotFoundError.
Proof.
  revert cur. induction comps as [|c comps IH]; intros cur; simpl; [done|].
  destruct (fs !! cur) as [[f|]|]; eauto; intros; simplify_eq; auto.
Qed.

Lemma rename_fs_OSError fs src dst e :
  rename_fs pf fs src dst = inl e → is_OSError e = true.
Proof.
  unfold rename_fs, locate. intros Hr.
  repeat (case_match; simplify_eq); try done;
    try (match goal with H : walk _ _ _ = inl _ |- _ =>
                           apply walk_error in H as [-> | ->] end; done);
    by match goal with f : fault |- _ => destruct f end.
Qed.

(** What [update_file_content] does, for values that are strings. *)
Lemma update_file_content_eq p n l w :
  update_file_content pf p (PStr n) (PStr l) w =
  let w1 := add_event w (EvRead p) in
  match read_fs pf (w_fs w) p with
  | inl e =>
      if is_decode_or_permission e
      then (Ok false, add_msg w1 (MsgWarnUpdate p e))
      else (Raise e, w1)
  | inr c =>
      if bool_decide (substitute c n l ≠ c) then
        let w2 := add_event w1 (EvWrite p) in
        match write_fs pf (w_fs w) p (substitute c n l) with
        | inl e =>
            if is_decode_or_permission e
            then (Ok false, add_msg w2 (MsgWarnUpdate p e))
            else (Raise e, w2)
        | inr fs' => (Ok true, with_fs w2 fs')
        end
      else (Ok false, w1)
  end.
Proof.
  unfold update_file_content, try_except, open_read, open_write, bind, log,
    get_fs, set_fs, str_replace, ret, lift, raise, print. simpl.
  destruct (read_fs pf (w_fs w) p) as [e|c]; simpl.
  { by destruct (is_decode_or_permission e). }
  change (PyStr.replace (PyStr.replace c TOKEN_NAME n) TOKEN_LABEL l)
    with (substitute c n l).
  destruct (bool_decide (substitute c n l ≠ c)); simpl; [|done].
  destruct (write_fs pf (w_fs w) p (substitute c n l)) as [e|fs']; simpl; [|done].
  by destruct (is_decode_or_permission e).
Qed.

(** What [rename_file] does, for values that are strings. *)
Lemma rename_file_eq p n l w :
  rename_file pf p (PStr n) (PStr l) w =
  let new_name := substitute (name p) n l in
  if bool_decide (new_name ≠ name p) then
    let new_path := truediv (parent p) new_name in
    let w1 := add_event w (EvRename p new_path) in
    match rename_fs pf (w_fs w) p new_path with
    | inl e => (Ok p, add_msg w1 (MsgWarnRename p new_path e))
    | inr fs' => (Ok new_path, with_fs w1 fs')
    end
  else (Ok p, w).
Proof.
  unfold rename_file, try_except, os_rename, bind, log,
    get_fs, set_fs, str_replace, ret, lift, raise, print. simpl.
  change (PyStr.replace (PyStr.replace (name p) TOKEN_NAME n) TOKEN_LABEL l)
    with (substitute (name p) n l).
  destruct (bool_decide (substitute (name p) n l ≠ name p)); simpl; [|done].
  destruct (rename_fs pf (w_fs w) p _) as [e|fs'] eqn:Hr; simpl; [|done].
  by rewrite (rename_fs_OSError _ _ _ _ Hr).
Qed.

(** With a value that is no string, the file system is not touched. *)
Lemma update_file_content_not_str p v1 v2 :
  both_str v1 v2 = false → sat same_fs (update_file_content pf p v1 v2).
Proof.
  intros Hv w. unfold update_file_content, try_except, open_read, bind, log,
    get_fs, str_replace, ret, lift, raise, print. simpl.
  destruct (read_fs pf (w_fs w) p) as [e|c]; simpl.
  { by destruct (is_decode_or_permission e). }
  destruct v1, v2; simpl in *; done.
Qed.

Lemma rename_file_not_str p v1 v2 w :
  both_str v1 v2 = false → rename_file pf p v1 v2 w = (Raise TypeError, w).
Proof.
  intros Hv. unfold rename_file, bind, str_replace, raise, ret.
  destruct v1, v2; simpl in *; done.
Qed.

Lemma both_str_cases v1 v2 :
  (∃ n l, v1 = PStr n ∧ v2 = PStr l) ∨ both_str v1 v2 = false.
Proof. destruct v1, v2; simpl; eauto. Qed.
End explicit.

Section loops.
Context {X S : Type}.
Implicit Types (body : S → X → M S) (Inv : world → Prop).

(** A loop keeps what each of its rounds keeps. *)
Lemma for_each_inv Inv body xs acc w :
  (∀ acc x w, x ∈ xs → Inv w → Inv (body acc x w).2) →
  Inv w → Inv (for_each xs body acc w).2.
Proof.
  revert acc w. induction xs as [|x xs IH]; intros acc w Hb Hw; simpl; [done|].
  unfold bind. pose proof (Hb acc x w ltac:(by left) Hw) as H1.
  destruct (body acc x w) as [[acc'|e] w1]; simpl in *; [|done].
  apply IH; [|done]. intros ? ? ? ?. apply Hb. by right.
Qed.

(** A loop whose rounds do not raise does not raise. *)
Lemma for_each_ok Inv body xs acc w :
  (∀ acc x w, x ∈ xs → Inv w →
              ∃ acc' w', body acc x w = (Ok acc', w') ∧ Inv w') →
  Inv w → ∃ acc' w', for_each xs body acc w = (Ok acc', w') ∧ Inv w'.
Proof.
  revert acc w. induction xs as [|x xs IH]; intros acc w Hb Hw; simpl.
  - by exists acc, w.
  - unfold bind. destruct (Hb acc x w ltac:(by left) Hw) as (acc1 & w1 & -> & H1).
    apply IH; [|done]. intros ? ? ? ?. apply Hb. by right.
Qed.
End loops.

(** A loop that gathers: every round appends what it selects. *)
Lemma for_each_collect {X Y} (Inv : world → Prop) (E : exn → Prop)
    (g : X → list Y) (body : list Y → X → M (list Y)) xs acc w :
  (∀ acc x w, x ∈ xs → Inv w →
     Inv (body acc x w).2 ∧
     match (body acc x w).1 with
     | Ok acc' => acc' = acc ++ g x
     | Raise e => E e
     end) →
  Inv w →
  Inv (for_each xs body acc w).2 ∧
  match (for_each xs body acc w).1 with
  | Ok acc' => acc' = acc ++ flat_map g xs
  | Raise e => E e
  end.
Proof.
  revert acc w. induction xs as [|x xs IH]; intros acc w Hb Hw; simpl.
  - by rewrite app_nil_r.
  - unfold bind. destruct (Hb acc x w ltac:(by left) Hw) as [H1 H2].
    destruct (body acc x w) as [[acc'|e] w1]; simpl in *; [|done].
    subst acc'. rewrite app_assoc. apply IH; [|done].
    intros ? ? ? ?. apply Hb. by right.
Qed.

Lemma elem_of_keep (sel : Path → bool) p q : q ∈ keep sel p ↔ q = p ∧ sel p = true.
Proof.
  unfold keep. destruct (sel p).
  - rewrite list_elem_of_singleton. split; [by intros -> | by intros [-> _]].
  - rewrite elem_of_nil. split; [done | by intros [_ ?]].
Qed.

Lemma elem_of_flat_map {X Y} (g : X → list Y) xs y :
  y ∈ flat_map g xs ↔ ∃ x, x ∈ xs ∧ y ∈ g x.
Proof.
  induction xs as [|x xs IH]; simpl.
  - rewrite elem_of_nil. split; [done | intros (x & Hx & _); by apply elem_of_nil in Hx].
  - rewrite elem_of_app, IH. split.
    + intros [Hy | (x' & Hx' & Hy)]; [exists x; split; [by left | done]|].
      exists x'. split; [by right | done].
    + intros (x' & Hx' & Hy). apply elem_of_cons in Hx' as [-> | Hx']; eauto.
Qed.

Section scans.
Variable pf : platform.

Lemma elem_of_content_candidates fs p :
  p ∈ content_candidates pf fs ↔ p ∈ entries pf fs ∧ content_match pf fs p = true.
Proof.
  unfold content_candidates. rewrite elem_of_flat_map. split.
  - intros (x & Hx & Hp). apply elem_of_keep in Hp as [-> Hp]. done.
  - intros [Hp Hs]. exists p. split; [done|]. by apply elem_of_keep.
Qed.

Lemma elem_of_name_candidates fs p :
  p ∈ name_candidates pf fs ↔ p ∈ entries pf fs ∧ name_match pf fs p = true.
Proof.
  unfold name_candidates. rewrite elem_of_flat_map. split.
  - intros (x & Hx & Hp). apply elem_of_keep in Hp as [-> Hp]. done.
  - intros [Hp Hs]. exists p. split; [done|]. by apply elem_of_keep.
Qed.

(** The scan of the names reads nothing and returns the name
    candidates. *)
Lemma find_files_with_placeholder_names_eq w :
  find_files_with_placeholder_names pf (lit ".") w
  = (Ok (name_candidates pf (w_fs w)), w).
Proof.
  unfold find_files_with_placeholder_names.
  set (body := λ (files : list Path) (search_dir : str), _).
  pose proof (for_each_collect (λ w', w' = w) (λ _, False)
    (λ d, let dir_path := truediv (path_of (lit ".")) d in
          if exists_fs pf (w_fs w) dir_path
          then flat_map (keep (name_match pf (w_fs w))) (rglob_fs pf (w_fs w) dir_path)
          else [])
    body search_dirs [] w) as Hc.
  destruct Hc as [Hw Hr]; [|done|].
  - intros acc d w' _ ->. unfold body, bind, exists_, rglob, get_fs, ret. simpl.
    destruct (exists_fs pf (w_fs w) _); simpl; [|by rewrite app_nil_r].
    apply (for_each_collect (λ w', w' = w) (λ _, False)); [|done].
    intros acc' p w' _ ->. unfold bind, is_file, get_fs, ret, keep, name_match. simpl.
    destruct (is_file_fs pf (w_fs w) p); simpl; [|by rewrite app_nil_r].
    destruct (has_placeholder (name p)); simpl; [done | by rewrite app_nil_r].
  - destruct (for_each search_dirs body [] w) as [[l|e] w']; simpl in *; [|done].
    subst. f_equal. f_equal. unfold name_candidates, entries, search_paths.
    unfold search_dirs. simpl. rewrite !app_nil_r.
    repeat case_match; simpl; rewrite ?app_nil_r; try done.
    by rewrite flat_map_app.
Qed.

(** The scan of the contents only reads; it returns the content
    candidates unless a read fails with an error it does not catch. *)
Lemma find_files_with_placeholders_spec w :
  let out := find_files_with_placeholders pf (lit ".") w in
  only_trace w out.2 ∧
  match out.1 with
  | Ok files => files = content_candidates pf (w_fs w)
  | Raise e =>
      ∃ p, p ∈ entries pf (w_fs w) ∧ is_file_fs pf (w_fs w) p = true
           ∧ read_fs pf (w_fs w) p = inl e
           ∧ is_decode_or_permission e = false
  end.
Proof.
  unfold find_files_with_placeholders.
  set (body := λ (files : list Path) (search_dir : str), _).
  set (E := λ e, ∃ p, p ∈ entries pf (w_fs w) ∧ is_file_fs pf (w_fs w) p = true
           ∧ read_fs pf (w_fs w) p = inl e
           ∧ is_decode_or_permission e = false).
  pose proof (for_each_collect (only_trace w) E
    (λ d, let dir_path := truediv (path_of (lit ".")) d in
          if exists_fs pf (w_fs w) dir_path
          then flat_map (keep (content_match pf (w_fs w))) (rglob_fs pf (w_fs w) dir_path)
          else [])
    body search_dirs [] w) as Hc.
  destruct Hc as [Hw Hr]; [|done|].
  - intros acc d w' Hd [Hfs Hout]. unfold body, bind, exists_, rglob, get_fs, ret. simpl.
    rewrite Hfs.
    destruct (exists_fs pf (w_fs w) _) eqn:Hex; simpl; rewrite ?Hfs.
    2:{ split; [by split | by rewrite app_nil_r]. }
    apply (for_each_collect (only_trace w) E); [|by split].
    intros acc' p w'' Hp [Hfs' Hout'].
    unfold bind, is_file, get_fs, ret, keep, content_match, try_except, open_read,
      log, lift, raise. simpl. rewrite Hfs'.
    destruct (is_file_fs pf (w_fs w) p) eqn:Hf; simpl.
    2:{ split; [by split | by rewrite app_nil_r]. }
    unfold try_except, open_read, bind, log, get_fs, lift, ret, raise. simpl.
    rewrite Hfs'.
    destruct (read_fs pf (w_fs w) p) as [e|c] eqn:Hrd; simpl.
    + destruct (is_decode_or_permission e) eqn:He; simpl.
      { split; [by split | by rewrite app_nil_r]. }
      split; [by split|]. exists p. split_and!; [|done..].
      unfold entries. apply elem_of_flat_map.
      exists (truediv (path_of (lit ".")) d). split.
      * unfold search_paths. by apply list_elem_of_fmap_2.
      * by rewrite Hex.
    + destruct (has_placeholder c); simpl;
        (split; [by split | by rewrite ?app_nil_r]).
  - split; [done|].
    destruct (for_each search_dirs body [] w) as [[l|e] w']; simpl in *; [|done].
    subst. unfold content_candidates, entries, search_paths.
    unfold search_dirs. simpl. rewrite !app_nil_r.
    repeat case_match; simpl; rewrite ?app_nil_r; try done.
    by rewrite flat_map_app.
Qed.
End scans.

Lemma bind_ok {A B} (m : M A) (k : A → M B) w a w' :
  m w = (Ok a, w') → bind m k w = k a w'.
Proof. unfold bind. by intros ->. Qed.

Lemma bind_raise {A B} (m : M A) (k : A → M B) w e w' :
  m w = (Raise e, w') → bind m k w = (Raise e, w').
Proof. unfold bind. by intros ->. Qed.

(** An outcome is its result paired with its world. *)
Lemma outcome_eta {A} (x : result A * world) r : x.1 = r → x = (r, x.2).
Proof. destruct x. simpl. by intros ->. Qed.

Ltac step_with H := rewrite (bind_ok _ _ _ _ _ H); cbv beta.

Lemma print_eq msg w : print msg w = (Ok (), add_msg w msg).
Proof. done. Qed.

Ltac step_print := rewrite (bind_ok _ _ _ _ _ (print_eq _ _)); cbv beta.

Lemma node_shape_refl x : node_shape x x.
Proof. by destruct x as [[f|]|]. Qed.

Lemma node_shape_trans x y z : node_shape x y → node_shape y z → node_shape x z.
Proof.
  destruct x as [[f|]|], y as [[g|]|], z as [[h|]|]; simpl; try done.
  intros (? & ? & ? & ?) (? & ? & ? & ?). split_and!; congruence.
Qed.

Global Instance shape_fs_preorder : PreOrder shape_fs.
Proof.
  split.
  - intros fs k. apply node_shape_refl.
  - intros a b c H1 H2 k. by eapply node_shape_trans.
Qed.

Global Instance shape_preorder : PreOrder shape.
Proof.
  split.
  - intros w. unfold shape. reflexivity.
  - intros a b c H1 H2. unfold shape in *. by etrans.
Qed.

Lemma same_fs_shape w w' : same_fs w w' → shape w w'.
Proof. unfold same_fs, shape. intros ->. reflexivity. Qed.

Section same_fs.
Variable pf : platform.

Lemma same_fs_print msg : sat same_fs (print msg).
Proof. done. Qed.
Lemma same_fs_log ev : sat same_fs (log ev).
Proof. done. Qed.
Lemma same_fs_get_fs : sat same_fs get_fs.
Proof. done. Qed.
Lemma same_fs_open_read p : sat same_fs (open_read pf p).
Proof.
  unfold open_read. sat_split; auto using same_fs_log, same_fs_get_fs.
Qed.
Lemma same_fs_str_replace s old new : sat same_fs (str_replace s old new).
Proof. unfold str_replace. sat_split. Qed.

End same_fs.

#[export] Hint Resolve same_fs_print same_fs_log same_fs_get_fs
  same_fs_open_read same_fs_str_replace : sat.

Lemma load_block_same_fs pf : sat same_fs (load_block pf).
Proof.
  unfold load_block, load_cumulusci_config, get_project_values. sat_split.
Qed.

Section shape.
Variable pf : platform.

Lemma walk_shape fs fs' cur comps :
  shape_fs fs fs' → walk fs' cur comps = walk fs cur comps.
Proof.
  intros Hs. revert cur. induction comps as [|c comps IH]; intros cur; simpl; [done|].
  specialize (Hs cur).
  destruct (fs !! cur) as [[f|]|], (fs' !! cur) as [[f'|]|]; simpl in Hs; try done.
Qed.

Lemma locate_shape fs fs' p :
  shape_fs fs fs' → locate pf fs' p = locate pf fs p.
Proof. apply walk_shape. Qed.

Lemma is_file_fs_shape fs fs' p :
  shape_fs fs fs' → is_file_fs pf fs' p = is_file_fs pf fs p.
Proof.
  intros Hs. unfold is_file_fs, is_reg. rewrite (locate_shape _ _ _ Hs).
  destruct (locate pf fs p) as [e|k]; [done|]. specialize (Hs k).
  destruct (fs !! k) as [[f|]|], (fs' !! k) as [[f'|]|]; simpl in Hs; done.
Qed.

Lemma no_failing_shape fs fs' : shape_fs fs fs' → no_failing fs → no_failing fs'.
Proof.
  intros Hs Hn k f' Hk. specialize (Hs k). rewrite Hk in Hs.
  destruct (fs !! k) as [[f|]|] eqn:Hf; simpl in Hs; try done.
  destruct Hs as (_ & -> & -> & _). by eapply Hn.
Qed.

(** A write that follows a read of the same path changes the data of
    the file that was read. *)
Lemma write_after_read fs p c s fs' :
  read_fs pf fs p = inr c → write_fs pf fs p s = inr fs' →
  ∃ k f, locate pf fs p = inr k ∧ fs !! k = Some (NFile f)
         ∧ f_read f = None ∧ f_data f = Text c ∧ f_write f = None
         ∧ fs' = <[k := NFile (set_data f (Text s))]> fs.
Proof.
  unfold read_fs, write_fs. intros Hr Hw.
  destruct (locate pf fs p) as [e|k]; [done|].
  destruct (fs !! k) as [[f|]|] eqn:Hk; try done.
  destruct (f_read f) eqn:Hfr; [done|].
  destruct (f_data f) eqn:Hfd; [|done].
  destruct (f_write f) eqn:Hfw; [done|].
  simplify_eq. by exists k, f.
Qed.

Lemma shape_fs_set_data fs k f c :
  fs !! k = Some (NFile f) → shape_fs fs (<[k := NFile (set_data f c)]> fs).
Proof.
  intros Hk k'. destruct (decide (k = k')) as [<- | Hne].
  - rewrite lookup_insert_eq, Hk. done.
  - rewrite lookup_insert_ne by done. apply node_shape_refl.
Qed.

Lemma update_file_content_shape p v1 v2 :
  sat shape (update_file_content pf p v1 v2).
Proof.
  intros w. destruct (both_str_cases v1 v2) as [(n & l & -> & ->) | Hv].
  2:{ by apply same_fs_shape, update_file_content_not_str. }
  rewrite update_file_content_eq. cbv zeta.
  destruct (read_fs pf (w_fs w) p) as [e|c] eqn:Hr.
  { destruct (is_decode_or_permission e); unfold shape; simpl; reflexivity. }
  destruct (bool_decide _); [|unfold shape; simpl; reflexivity].
  destruct (write_fs pf (w_fs w) p _) as [e|fs'] eqn:Hw.
  { destruct (is_decode_or_permission e); unfold shape; simpl; reflexivity. }
  destruct (write_after_read _ _ _ _ _ Hr Hw) as (k & f & _ & Hk & _ & _ & _ & ->).
  unfold shape. simpl. by apply shape_fs_set_data.
Qed.

(** On a regular file whose faults are refusals, the update does not
    raise. *)
Lemma update_file_content_ok p n l w :
  is_file_fs pf (w_fs w) p = true → no_failing (w_fs w) →
  ∃ b w', update_file_content pf p (PStr n) (PStr l) w = (Ok b, w').
Proof.
  intros Hf Hn. rewrite update_file_content_eq. cbv zeta.
  unfold is_file_fs, is_reg in Hf. unfold read_fs, write_fs.
  destruct (locate pf (w_fs w) p) as [e|k]; [done|].
  destruct (w_fs w !! k) as [[f|]|] eqn:Hk; try done.
  destruct (Hn k f Hk) as [Hr Hw].
  destruct (f_read f) as [[]|]; try done; simpl; eauto.
  destruct (f_data f); simpl; eauto.
  destruct (bool_decide _); eauto.
  destruct (f_write f) as [[]|]; try done; simpl; eauto.
Qed.

Lemma update_loop_ok files n l w :
  (∀ p, p ∈ files → is_file_fs pf (w_fs w) p = true) → no_failing (w_fs w) →
  ∃ c w', update_loop pf files (PStr n) (PStr l) w = (Ok c, w').
Proof.
  intros Hfiles Hn. unfold update_loop.
  edestruct (for_each_ok (X:=Path) (S:=nat) (λ w', shape w w')) as (c & w' & Heq & _);
    [| |by eauto]; [|reflexivity].
  intros acc p w1 Hp Hs.
  assert (is_file_fs pf (w_fs w1) p = true) as Hf.
  { rewrite (is_file_fs_shape _ _ _ Hs). by apply Hfiles. }
  assert (no_failing (w_fs w1)) as Hn1 by (by eapply no_failing_shape).
  destruct (update_file_content_ok p n l w1 Hf Hn1) as (b & w2 & Hu).
  pose proof (update_file_content_shape p (PStr n) (PStr l) w1) as Hs2.
  rewrite Hu in Hs2. simpl in Hs2.
  rewrite (bind_ok _ _ _ _ _ Hu). destruct b.
  - eexists _, _. split; [reflexivity|]. simpl. by etrans.
  - eexists _, _. split; [reflexivity|]. by etrans.
Qed.

Lemma rename_loop_ok files n l w :
  ∃ c w', rename_loop pf files (PStr n) (PStr l) w = (Ok c, w').
Proof.
  unfold rename_loop.
  edestruct (for_each_ok (X:=Path) (S:=nat) (λ _, True)) as (c & w' & Heq & _);
    [| |by eauto]; [|done].
  intros acc p w1 _ _. unfold bind. rewrite rename_file_eq. cbv zeta.
  destruct (bool_decide _); simpl.
  - destruct (rename_fs _ _ _ _); simpl; destruct (bool_decide _); simpl; eauto.
  - destruct (bool_decide _); simpl; eauto.
Qed.

(** The content scan does not raise when the faults are refusals. *)
Lemma find_files_with_placeholders_ok w :
  no_failing (w_fs w) →
  ∃ w', find_files_with_placeholders pf (lit ".") w
        = (Ok (content_candidates pf (w_fs w)), w') ∧ only_trace w w'.
Proof.
  intros Hn. pose proof (find_files_with_placeholders_spec pf w) as [Ht Hr].
  destruct (find_files_with_placeholders pf (lit ".") w) as [[files|e] w'];
    simpl in *.
  - subst. by exists w'.
  - exfalso. destruct Hr as (p & _ & Hf & Hrd & He).
    unfold is_file_fs, is_reg in Hf. unfold read_fs in Hrd.
    destruct (locate pf (w_fs w) p) as [e'|k]; [done|].
    destruct (w_fs w !! k) as [[f|]|] eqn:Hk; try done.
    destruct (Hn k f Hk) as [Hfr _].
    destruct (f_read f) as [[]|]; simplify_eq; try done.
    destruct (f_data f); simplify_eq; done.
Qed.

(** With string values and no fault other than refusals, [main] returns
    [None]. *)
Lemma main_returns_none w n l w1 :
  load_block pf (add_msg w MsgStarting) = (Ok (Some (PStr n, PStr l)), w1) →
  no_failing (w_fs w) →
  ∃ w', main pf w = (Ok None, w').
Proof.
  intros Hload Hn. unfold main. step_print. step_with Hload.
  pose proof (load_block_same_fs pf (add_msg w MsgStarting)) as Hfs.
  rewrite Hload in Hfs. unfold same_fs in Hfs. simpl in Hfs.
  step_print.
  assert (no_failing (w_fs (add_msg w1 MsgSearching))) as Hn1.
  { simpl. by rewrite Hfs. }
  destruct (find_files_with_placeholders_ok (add_msg w1 MsgSearching) Hn1)
    as (w2 & Hscan & Hfs2 & _).
  step_with Hscan. simpl in Hfs2.
  rewrite (bind_ok _ _ _ _ _ (find_files_with_placeholder_names_eq pf w2)). cbv beta.
  do 3 step_print.
  match goal with |- context [bind (update_loop pf ?fl _ _) _ ?ww] =>
    destruct (update_loop_ok fl n l ww) as (c & w3 & Hup) end.
  { intros p Hp. apply elem_of_content_candidates in Hp as [_ Hp].
    unfold content_match in Hp. apply andb_true_iff in Hp as [Hp _].
    simpl in *. by rewrite Hfs2. }
  { simpl. by rewrite Hfs2. }
  step_with Hup. step_print.
  match goal with |- context [bind (rename_loop pf ?fl _ _) _ ?ww] =>
    destruct (rename_loop_ok fl n l ww) as (c' & w4 & Hre) end.
  step_with Hre. do 4 step_print. eauto.
Qed.
End shape.

Lemma TOKEN_NAME_nonempty : TOKEN_NAME ≠ [].
Proof. done. Qed.

Lemma TOKEN_LABEL_nonempty : TOKEN_LABEL ≠ [].
Proof. done. Qed.

Lemma safe_values_spec n l :
  safe_values n l = true →
  PyStr.OverlapFree TOKEN_NAME n ∧ PyStr.OverlapFree TOKEN_NAME l
  ∧ PyStr.OverlapFree TOKEN_LABEL l.
Proof.
  unfold safe_values. rewrite !andb_true_iff. intros [[H1 H2] H3].
  split_and!; by apply overlap_free_spec.
Qed.

(** With safe values no token is left by the two replacements. *)
Lemma substitute_clean s n l :
  safe_values n l = true →
  ¬ PyStr.infix TOKEN_NAME (substitute s n l)
  ∧ ¬ PyStr.infix TOKEN_LABEL (substitute s n l).
Proof.
  intros (Hn & Hnl & Hl)%safe_values_spec. unfold substitute. split.
  - intros Hi. apply replace_infix_back in Hi; [|done..].
    by apply replace_no_old in Hi.
  - by apply replace_no_old.
Qed.

Lemma substitute_absent s n l :
  ¬ PyStr.infix TOKEN_NAME s → ¬ PyStr.infix TOKEN_LABEL s → substitute s n l = s.
Proof.
  intros Hn Hl. unfold substitute.
  rewrite (replace_absent TOKEN_NAME n s) by done. by apply replace_absent.
Qed.

Lemma substitute_idempotent s n l :
  safe_values n l = true →
  substitute (substitute s n l) n l = substitute s n l.
Proof.
  intros Hs. destruct (substitute_clean s n l Hs). by apply substitute_absent.
Qed.

Lemma run_main_none pf w w' : main pf w = (Ok None, w') → run pf w = (0%Z, w').
Proof. unfold run. by intros ->. Qed.

Lemma load_block_never_raises pf w : ∃ r w1, load_block pf w = (Ok r, w1).
Proof.
  unfold load_block, try_except.
  match goal with |- context [match ?m w with _ => _ end] =>
    destruct (m w) as [[r|e] w1] end; simpl; [by eauto|].
  unfold bind, print, ret. simpl. eauto.
Qed.

Lemma get_project_values_eq cfg w :
  get_project_values cfg w =
  (match dig cfg NAME_KEY, dig cfg LABEL_KEY with
   | Found v1, Found v2 => Ok (v1, v2)
   | Found _, Missing | Missing, _ => Raise (ValueError MISSING_MSG)
   | Found _, NotAMapping | NotAMapping, _ => Raise TypeError
   end, w).
Proof.
  unfold get_project_values, try_except, bind, lift, getitem, ret, raise,
    NAME_KEY, LABEL_KEY. simpl.
  destruct cfg as [| | | | |items]; try done.
  destruct (dict_get items (lit "project")) as [[| | | | |items2]|]; try done.
  destruct (dict_get items2 (lit "package")) as [[| | | | |items3]|]; try done.
  destruct (dict_get items3 (lit "name")) as [v1|]; try done.
  destruct (dict_get items3 (lit "name_managed")) as [v2|]; done.
Qed.

Lemma load_cumulusci_config_eq pf w :
  load_cumulusci_config pf w =
  (match read_fs pf (w_fs w) (path_of CONFIG_FILE) with
   | inr text =>
       match yaml_safe_load pf text with
       | Some config => Ok config
       | None => Raise (ValueError PARSE_MSG)
       end
   | inl YAMLError => Raise (ValueError PARSE_MSG)
   | inl e => Raise e
   end, add_event w (EvRead (path_of CONFIG_FILE))).
Proof.
  unfold load_cumulusci_config, try_except, open_read, bind, log, get_fs, lift,
    ret, raise. simpl. fold CONFIG_FILE.
  destruct (read_fs pf (w_fs w) (path_of CONFIG_FILE)) as [e|text]; simpl.
  - by destruct e.
  - by destruct (yaml_safe_load pf text).
Qed.

Lemma read_fs_not_YAMLError pf fs p : read_fs pf fs p ≠ inl YAMLError.
Proof.
  unfold read_fs, locate. intros H. repeat (case_match; simplify_eq).
  all: try (match goal with H : walk _ _ _ = inl _ |- _ =>
                   by apply walk_error in H as [? | ?] end).
  all: match goal with f : fault |- _ => by destruct f end.
Qed.

Lemma no_failingb_spec fs : no_failingb fs = true → no_failing fs.
Proof.
  unfold no_failingb. rewrite forallb_forall. intros Hall k f Hk.
  specialize (Hall (k, NFile f)). simpl in Hall.
  assert (In (k, NFile f) (map_to_list fs)) as Hin.
  { apply list_elem_of_In. by apply elem_of_map_to_list. }
  specialize (Hall Hin).
  destruct (f_read f) as [[]|], (f_write f) as [[]|]; done.
Qed.

(** The stages of [main]. *)
Section structure.
Variable pf : platform.

Lemma main_outcome w : outcome pf w (main pf w).1 (main pf w).2.
Proof.
  unfold main. step_print.
  destruct (load_block_never_raises pf (add_msg w MsgStarting)) as (r & w1 & Hload).
  pose proof (load_block_same_fs pf (add_msg w MsgStarting)) as Hfs1.
  rewrite Hload in Hfs1. unfold same_fs in Hfs1. simpl in Hfs1.
  step_with Hload. destruct r as [[v1 v2]|]; [|by apply out_not_loaded].
  step_print.
  pose proof (find_files_with_placeholders_spec pf (add_msg w1 MsgSearching))
    as [[Hfs2 _] Hr]. simpl in Hfs2, Hr.
  destruct (find_files_with_placeholders pf (lit ".") (add_msg w1 MsgSearching))
    as [[files|e] w2] eqn:Hscan; simpl in *.
  2:{ rewrite (bind_raise _ _ _ _ _ Hscan). by eapply out_scan_raised. }
  step_with Hscan.
  rewrite (bind_ok _ _ _ _ _ (find_files_with_placeholder_names_eq pf w2)). cbv beta.
  do 3 step_print. rewrite Hfs1 in Hr. rewrite Hfs2, Hfs1. subst files.
  fold (after_scan w2 (content_candidates pf (w_fs w)) (name_candidates pf (w_fs w))).
  destruct (update_loop pf (content_candidates pf (w_fs w)) v1 v2
              (after_scan w2 (content_candidates pf (w_fs w))
                 (name_candidates pf (w_fs w)))) as [[c|e] w4] eqn:Hup.
  2:{ rewrite (bind_raise _ _ _ _ _ Hup). by eapply out_update_raised. }
  step_with Hup. step_print.
  destruct (rename_loop pf (name_candidates pf (w_fs w)) v1 v2
              (add_msg w4 MsgRenaming)) as [[n|e] w5] eqn:Hre.
  - step_with Hre. do 4 step_print. unfold ret. simpl.
    by apply (out_renamed pf w v1 v2 w1 w2 c w4 (Ok n) w5).
  - rewrite (bind_raise _ _ _ _ _ Hre). simpl.
    by apply (out_renamed pf w v1 v2 w1 w2 c w4 (Raise e) w5).
Qed.

(** A relation between file systems that both loops keep holds between
    the file system [main] starts from and the one it leaves. *)
Lemma main_fs_rel (R : relation (gmap location node)) `{!Reflexive R} w :
  (∀ v1 v2 w1 wa,
     load_block pf (add_msg w MsgStarting) = (Ok (Some (v1, v2)), w1) →
     w_fs wa = w_fs w →
     R (w_fs w)
       (w_fs (update_loop pf (content_candidates pf (w_fs w)) v1 v2 wa).2)) →
  (∀ v1 v2 w1 wa,
     load_block pf (add_msg w MsgStarting) = (Ok (Some (v1, v2)), w1) →
     R (w_fs w) (w_fs wa) →
     R (w_fs w)
       (w_fs (rename_loop pf (name_candidates pf (w_fs w)) v1 v2 wa).2)) →
  R (w_fs w) (w_fs (main pf w).2).
Proof.
  intros Hup Hre.
  destruct (main_outcome w) as [w1 Hload|v1 v2 w1 e w2 Hload Hscan
    |v1 v2 w1 w2 e w4 Hload Hscan Hu|v1 v2 w1 w2 c w4 r w5 Hload Hscan Hu Hr].
  - pose proof (load_block_same_fs pf (add_msg w MsgStarting)) as Hfs1.
    rewrite Hload in Hfs1. unfold same_fs in Hfs1. simpl in Hfs1.
    rewrite Hfs1. reflexivity.
  - pose proof (load_block_same_fs pf (add_msg w MsgStarting)) as Hfs1.
    rewrite Hload in Hfs1. unfold same_fs in Hfs1. simpl in Hfs1.
    pose proof (find_files_with_placeholders_spec pf (add_msg w1 MsgSearching))
      as [[Hfs2 _] _]. rewrite Hscan in Hfs2. simpl in Hfs2.
    rewrite Hfs2, Hfs1. reflexivity.
  - pose proof (load_block_same_fs pf (add_msg w MsgStarting)) as Hfs1.
    rewrite Hload in Hfs1. unfold same_fs in Hfs1. simpl in Hfs1.
    pose proof (find_files_with_placeholders_spec pf (add_msg w1 MsgSearching))
      as [[Hfs2 _] _]. rewrite Hscan in Hfs2. simpl in Hfs2.
    specialize (Hup v1 v2 w1 (after_scan w2 (content_candidates pf (w_fs w))
                             (name_candidates pf (w_fs w))) Hload).
    rewrite Hu in Hup. apply Hup. simpl. congruence.
  - pose proof (load_block_same_fs pf (add_msg w MsgStarting)) as Hfs1.
    rewrite Hload in Hfs1. unfold same_fs in Hfs1. simpl in Hfs1.
    pose proof (find_files_with_placeholders_spec pf (add_msg w1 MsgSearching))
      as [[Hfs2 _] _]. rewrite Hscan in Hfs2. simpl in Hfs2.
    specialize (Hup v1 v2 w1 (after_scan w2 (content_candidates pf (w_fs w))
                             (name_candidates pf (w_fs w))) Hload).
    rewrite Hu in Hup. simpl in Hup.
    specialize (Hre v1 v2 w1 (add_msg w4 MsgRenaming) Hload).
    rewrite Hr in Hre. simpl in Hre.
    assert (R (w_fs w) (w_fs w5)) as H5.
    { apply Hre, Hup. congruence. }
    by destruct r.
Qed.
End structure.

Section loops_fs.
Variable pf : platform.

(** The file system after [update_file_content]: as before, or with
    the text that was read rewritten. *)
Lemma update_file_content_fs p v1 v2 w :
  w_fs (update_file_content pf p v1 v2 w).2 = w_fs w
  ∨ ∃ n l c, v1 = PStr n ∧ v2 = PStr l
             ∧ read_fs pf (w_fs w) p = inr c
             ∧ write_fs pf (w_fs w) p (substitute c n l)
               = inr (w_fs (update_file_content pf p v1 v2 w).2).
Proof.
  destruct (both_str_cases v1 v2) as [(n & l & -> & ->) | Hv].
  2:{ left. by apply update_file_content_not_str. }
  rewrite update_file_content_eq. cbv zeta.
  destruct (read_fs pf (w_fs w) p) as [e|c] eqn:Hr.
  { left. by destruct (is_decode_or_permission e). }
  destruct (bool_decide _); [|by left].
  destruct (write_fs pf (w_fs w) p _) as [e|fs'] eqn:Hw.
  { left. by destruct (is_decode_or_permission e). }
  right. by exists n, l, c.
Qed.

(** The file system after [rename_file]: as before, or with the
    rename done. *)
Lemma rename_file_fs p v1 v2 w :
  w_fs (rename_file pf p v1 v2 w).2 = w_fs w
  ∨ ∃ n l, v1 = PStr n ∧ v2 = PStr l
           ∧ rename_fs pf (w_fs w) p (truediv (parent p) (substitute (name p) n l))
             = inr (w_fs (rename_file pf p v1 v2 w).2).
Proof.
  destruct (both_str_cases v1 v2) as [(n & l & -> & ->) | Hv].
  2:{ left. by rewrite rename_file_not_str. }
  rewrite rename_file_eq. cbv zeta.
  destruct (bool_decide _); [|by left].
  destruct (rename_fs pf (w_fs w) p _) as [e|fs'] eqn:Hr; [by left|].
  right. by exists n, l.
Qed.

(** What every successful write of the update loop keeps, the loop
    keeps. *)
Lemma update_loop_fs_inv (Inv : gmap location node → Prop) files v1 v2 w :
  (∀ p fs fs' n l c,
     v1 = PStr n → v2 = PStr l →
     p ∈ files → Inv fs → read_fs pf fs p = inr c →
     write_fs pf fs p (substitute c n l) = inr fs' → Inv fs') →
  Inv (w_fs w) → Inv (w_fs (update_loop pf files v1 v2 w).2).
Proof.
  intros Hstep Hw. unfold update_loop.
  apply (for_each_inv (λ w, Inv (w_fs w))); [|done].
  intros acc p w1 Hp H1. unfold bind.
  pose proof (update_file_content_fs p v1 v2 w1) as Hfs.
  destruct (update_file_content pf p v1 v2 w1) as [[[]|e] w2]; simpl in *.
  all: destruct Hfs as [-> | (n & l & c & ? & ? & Hr & Hwr)]; eauto.
Qed.

(** What every successful rename of the rename loop keeps, the loop
    keeps. *)
Lemma rename_loop_fs_inv (Inv : gmap location node → Prop) files v1 v2 w :
  (∀ p fs fs' n l,
     v1 = PStr n → v2 = PStr l →
     p ∈ files → Inv fs →
     rename_fs pf fs p (truediv (parent p) (substitute (name p) n l)) = inr fs' →
     Inv fs') →
  Inv (w_fs w) → Inv (w_fs (rename_loop pf files v1 v2 w).2).
Proof.
  intros Hstep Hw. unfold rename_loop.
  apply (for_each_inv (λ w, Inv (w_fs w))); [|done].
  intros acc p w1 Hp H1. unfold bind.
  pose proof (rename_file_fs p v1 v2 w1) as Hfs.
  destruct (rename_file pf p v1 v2 w1) as [[q|e] w2]; simpl in *.
  - destruct (bool_decide _); simpl;
      destruct Hfs as [-> | (n & l & ? & ? & Hr)]; eauto.
  - destruct Hfs as [-> | (n & l & ? & ? & Hr)]; eauto.
Qed.
End loops_fs.

Global Instance dirs_same_equiv : Equivalence dirs_same.
Proof.
  split.
  - by intros fs k.
  - intros a b H k. by rewrite (H k).
  - intros a b c H1 H2 k. by rewrite (H1 k).
Qed.

Lemma shape_dirs_same fs fs' : shape_fs fs fs' → dirs_same fs fs'.
Proof.
  intros Hs k. specialize (Hs k).
  destruct (fs !! k) as [[f|]|], (fs' !! k) as [[f'|]|]; simpl in Hs; done.
Qed.

Lemma walk_dirs_same fs fs' cur comps k :
  dirs_same fs fs' → walk fs cur comps = inr k → walk fs' cur comps = inr k.
Proof.
  intros Hd. revert cur. induction comps as [|c comps IH]; intros cur; simpl; [done|].
  destruct (fs !! cur) as [[f|]|] eqn:Hc; try done.
  apply Hd in Hc. rewrite Hc. apply IH.
Qed.

Section dirs.
Variable pf : platform.

Lemma locate_dirs_same fs fs' p k :
  dirs_same fs fs' → locate pf fs p = inr k → locate pf fs' p = inr k.
Proof. apply walk_dirs_same. Qed.

(** Writing a file that was read keeps the shape. *)
Lemma write_after_read_shape fs p c s fs' :
  read_fs pf fs p = inr c → write_fs pf fs p s = inr fs' → shape_fs fs fs'.
Proof.
  intros Hr Hw.
  destruct (write_after_read pf _ _ _ _ _ Hr Hw) as (k & f & _ & Hk & _ & _ & _ & ->).
  by apply shape_fs_set_data.
Qed.

(** The rename of something that is no directory. *)
Lemma rename_fs_file fs src dst fs' :
  rename_fs pf fs src dst = inr fs' →
  (∀ k, locate pf fs src = inr k → fs !! k ≠ Some NDir) →
  fs' = fs
  ∨ ∃ ks kd f, locate pf fs src = inr ks ∧ locate pf fs dst = inr kd
               ∧ fs !! ks = Some (NFile f) ∧ ks ≠ kd
               ∧ fs !! kd ≠ Some NDir
               ∧ (posix pf = false → fs !! kd = None)
               ∧ f_move f = None
               ∧ fs' = <[kd := NFile f]> (delete ks fs).
Proof.
  unfold rename_fs. intros Hr Hnd.
  destruct (locate pf fs src) as [e|ks]; [done|].
  destruct (locate pf fs dst) as [e|kd]; [done|].
  specialize (Hnd ks eq_refl).
  destruct (fs !! ks) as [[f|]|] eqn:Hks; try done.
  destruct (f_move f) eqn:Hm; [done|].
  destruct (bool_decide (ks = kd)) eqn:Heq.
  { left. by simplify_eq. }
  apply bool_decide_eq_false in Heq.
  destruct (fs !! kd) as [[g|]|] eqn:Hkd.
  - destruct (posix pf) eqn:Hpx; [|done]. simplify_eq.
    right. exists ks, kd, f. split_and!; try done; congruence.
  - by destruct (posix pf).
  - simplify_eq. right. exists ks, kd, f. split_and!; try done; congruence.
Qed.

Lemma rename_fs_dirs_same fs src dst fs' :
  rename_fs pf fs src dst = inr fs' →
  (∀ k, locate pf fs src = inr k → fs !! k ≠ Some NDir) →
  dirs_same fs fs'.
Proof.
  intros Hr Hnd.
  destruct (rename_fs_file _ _ _ _ Hr Hnd)
    as [-> | (ks & kd & f & _ & _ & Hks & Hne & Hkd & _ & _ & ->)]; [done|].
  intros k. destruct (decide (k = kd)) as [-> | Hk1].
  { rewrite lookup_insert_eq. split; [done | intros; simplify_eq]. }
  rewrite lookup_insert_ne by done.
  destruct (decide (k = ks)) as [-> | Hk2].
  { rewrite lookup_delete_eq, Hks. done. }
  by rewrite lookup_delete_ne.
Qed.

Lemma update_loop_shape files v1 v2 : sat shape (update_loop pf files v1 v2).
Proof.
  intros w. unfold shape.
  apply (update_loop_fs_inv pf (λ fs, shape_fs (w_fs w) fs)); [|reflexivity].
  intros p fs fs' n l c _ _ _ Hs Hr Hw. etrans; [done|].
  by eapply write_after_read_shape.
Qed.

Lemma rename_loop_dirs_same fs0 files v1 v2 w :
  (∀ p, p ∈ files → is_file_fs pf fs0 p = true) →
  dirs_same fs0 (w_fs w) →
  dirs_same fs0 (w_fs (rename_loop pf files v1 v2 w).2).
Proof.
  intros Hfiles. apply rename_loop_fs_inv.
  intros p fs fs' n l _ _ Hp Hd Hr. etrans; [done|].
  eapply rename_fs_dirs_same; [done|]. intros k Hk Hdir.
  specialize (Hfiles p Hp). unfold is_file_fs, is_reg in Hfiles.
  symmetry in Hd. rewrite (locate_dirs_same _ _ _ _ Hd Hk) in Hfiles.
  apply Hd in Hdir. by rewrite Hdir in Hfiles.
Qed.

Lemma content_candidates_is_file fs p :
  p ∈ content_candidates pf fs → is_file_fs pf fs p = true.
Proof.
  intros [_ H]%elem_of_content_candidates. unfold content_match in H.
  by apply andb_true_iff in H as [H _].
Qed.

Lemma name_candidates_is_file fs p :
  p ∈ name_candidates pf fs → is_file_fs pf fs p = true.
Proof.
  intros [_ H]%elem_of_name_candidates. unfold name_match in H.
  by apply andb_true_iff in H as [H _].
Qed.

(** A run leaves the directories where they are. *)
Lemma main_dirs_same w : dirs_same (w_fs w) (w_fs (main pf w).2).
Proof.
  apply main_fs_rel; [apply _| |].
  - intros v1 v2 w1 wa _ Hwa. apply shape_dirs_same.
    pose proof (update_loop_shape (content_candidates pf (w_fs w)) v1 v2 wa) as Hs.
    unfold shape in Hs. by rewrite Hwa in Hs.
  - intros v1 v2 w1 wa _ Hwa. apply rename_loop_dirs_same; [|done].
    apply name_candidates_is_file.
Qed.
End dirs.

Section sources.
Variable pf : platform.

Lemma rename_loop_sources files v1 v2 :
  sat (grows (renames_of files)) (rename_loop pf files v1 v2).
Proof.
  unfold rename_loop. apply sat_for_each_in; [apply _|].
  intros acc p Hp.
  assert (∀ q, sat (grows (renames_of files)) (os_rename pf p q)) as Hos.
  { intros q. apply grows_os_rename. by eexists _, _. }
  unfold rename_file. sat_split.
Qed.

Lemma grows_add_msg P w m w' : grows P (add_msg w m) w' → grows P w w'.
Proof. done. Qed.

(** The calls of a run: calls that are no renames, then renames of
    name candidates. *)
Lemma main_trace w :
  ∃ updates renames,
    w_trace (main pf w).2 = w_trace w ++ updates ++ renames
    ∧ Forall quiet updates
    ∧ Forall (renames_of (name_candidates pf (w_fs w))) renames.
Proof.
  destruct (main_outcome pf w) as [w1 Hload|v1 v2 w1 e w2 Hload Hscan
    |v1 v2 w1 w2 e w4 Hload Hscan Hu|v1 v2 w1 w2 c w4 r w5 Hload Hscan Hu Hr].
  all: pose proof (load_block_quiet pf (add_msg w MsgStarting)) as (e1 & H1 & F1);
    rewrite Hload in H1; simpl in H1.
  2-4: pose proof (find_files_with_placeholders_quiet pf (lit ".")
                     (add_msg w1 MsgSearching)) as (e2 & H2 & F2);
    rewrite Hscan in H2; simpl in H2.
  3-4: pose proof (update_loop_quiet pf (content_candidates pf (w_fs w)) v1 v2
                     (after_scan w2 (content_candidates pf (w_fs w))
                        (name_candidates pf (w_fs w)))) as (e3 & H3 & F3);
    rewrite Hu in H3; simpl in H3.
  - exists e1, []. by rewrite app_nil_r.
  - exists (e1 ++ e2), []. rewrite app_nil_r, H2, H1, <- app_assoc.
    split_and!; [done | by apply Forall_app | done].
  - exists (e1 ++ e2 ++ e3), []. rewrite app_nil_r, H3, H2, H1, <- !app_assoc.
    split_and!; [done | by rewrite !Forall_app | done].
  - pose proof (rename_loop_sources (name_candidates pf (w_fs w)) v1 v2
                  (add_msg w4 MsgRenaming)) as (e4 & H4 & F4).
    rewrite Hr in H4. simpl in H4.
    exists (e1 ++ e2 ++ e3), e4.
    assert (w_trace w5 = w_trace w ++ (e1 ++ e2 ++ e3) ++ e4) as Ht.
    { rewrite H4, H3, H2, H1, <- !app_assoc. done. }
    split_and!; [by destruct r | by rewrite !Forall_app | done].
Qed.
End sources.

(** ** Paths and locations *)

Lemma strip_Some pre k rel : strip pre k = Some rel ↔ k = pre ++ rel.
Proof.
  revert k. induction pre as [|x pre IH]; intros k; simpl.
  - split; [by intros [= ->] | by intros ->].
  - destruct k as [|y k]; [done|]. case_bool_decide as Hxy.
    + subst y. rewrite IH. split; [by intros -> | by intros [= ->]].
    + split; [done | intros [= ? ?]; done].
Qed.

Lemma step_plain cur c : c ≠ DOTDOT → step cur c = cur ++ [c].
Proof. intros Hc. unfold step. by rewrite bool_decide_eq_false_2. Qed.

Lemma walk_app fs cur a b :
  walk fs cur (a ++ b)
  = match walk fs cur a with
    | inr k => walk fs k b
    | inl e => inl e
    end.
Proof.
  revert cur. induction a as [|c a IH]; intros cur; simpl; [done|].
  destruct (fs !! cur) as [[f|]|]; try done.
Qed.

Lemma walk_snoc_inv fs cur a c k :
  walk fs cur (a ++ [c]) = inr k →
  ∃ k0, walk fs cur a = inr k0 ∧ fs !! k0 = Some NDir ∧ k = step k0 c.
Proof.
  rewrite walk_app. destruct (walk fs cur a) as [e|k0]; [done|]. simpl.
  destruct (fs !! k0) as [[f|]|] eqn:Hk0; try done. intros [= <-]. by exists k0.
Qed.

Lemma walk_plain fs cur comps k :
  DOTDOT ∉ comps → walk fs cur comps = inr k → k = cur ++ comps.
Proof.
  revert cur. induction comps as [|c comps IH]; intros cur Hd; simpl.
  - intros [= <-]. by rewrite app_nil_r.
  - destruct (fs !! cur) as [[f|]|]; try done.
    apply not_elem_of_cons in Hd as [Hc Hd]. rewrite step_plain by done.
    intros Hw. apply IH in Hw; [|done]. by rewrite <- app_assoc in Hw.
Qed.

Lemma forallb_seq_S (f : nat → bool) a n :
  forallb f (seq (S a) n) = forallb (λ i, f (S i)) (seq a n).
Proof.
  revert a. induction n as [|n IH]; intros a; simpl; [done|]. by rewrite IH.
Qed.

Lemma forallb_pointwise {X} (f g : X → bool) l :
  (∀ x, f x = g x) → forallb f l = forallb g l.
Proof. intros Hfg. induction l as [|x l IH]; simpl; [done|]. by rewrite Hfg, IH. Qed.

Lemma below_cons fs cur c rel :
  below fs cur (c :: rel) = is_dir fs cur && below fs (cur ++ [c]) rel.
Proof.
  unfold below. simpl. rewrite app_nil_r. f_equal.
  rewrite forallb_seq_S. apply forallb_pointwise. intros n.
  simpl. by rewrite <- app_assoc.
Qed.

Lemma walk_below fs cur rel :
  below fs cur rel = true → DOTDOT ∉ rel → walk fs cur rel = inr (cur ++ rel).
Proof.
  revert cur. induction rel as [|c rel IH]; intros cur Hb Hd; simpl.
  - by rewrite app_nil_r.
  - rewrite below_cons in Hb. apply andb_true_iff in Hb as [Hdir Hb].
    unfold is_dir in Hdir. destruct (fs !! cur) as [[f|]|]; try done.
    apply not_elem_of_cons in Hd as [Hc Hd]. rewrite step_plain by done.
    rewrite IH by done. by rewrite <- app_assoc.
Qed.

Lemma search_paths_eq :
  search_paths = [MkPath false [lit "force-app"]; MkPath false [lit "unpackaged"]].
Proof. reflexivity. Qed.

Lemma search_dir_path d :
  d ∈ search_dirs → truediv (path_of (lit ".")) d = MkPath false [d].
Proof.
  unfold search_dirs. rewrite !elem_of_cons, elem_of_nil.
  intros [-> | [-> | []]]; reflexivity.
Qed.

Lemma search_dir_plain d : d ∈ search_dirs → d ≠ DOTDOT.
Proof.
  unfold search_dirs. rewrite !elem_of_cons, elem_of_nil.
  intros [-> | [-> | []]]; done.
Qed.

Section entries.
Variable pf : platform.

Lemma locate_search_dir fs d dloc :
  d ∈ search_dirs → locate pf fs (MkPath false [d]) = inr dloc →
  fs !! cwd pf = Some NDir ∧ dloc = cwd pf ++ [d].
Proof.
  intros Hd. unfold locate. simpl.
  destruct (fs !! cwd pf) as [[f|]|]; try done.
  rewrite step_plain by by apply search_dir_plain. by intros [= <-].
Qed.

(** What the scans look at: entries below a searched directory,
    reached through directories. *)
Lemma elem_of_entries fs p :
  faithful_listing pf →
  p ∈ entries pf fs ↔
  ∃ d c rel, d ∈ search_dirs ∧ p = MkPath false (d :: c :: rel)
             ∧ fs !! cwd pf = Some NDir
             ∧ is_Some (fs !! (cwd pf ++ d :: c :: rel))
             ∧ below fs (cwd pf ++ [d]) (c :: rel) = true.
Proof.
  intros Hlist. unfold entries. rewrite elem_of_flat_map. split.
  - intros (dp & Hdp & Hp).
    unfold search_paths in Hdp. apply list_elem_of_fmap in Hdp as (d & -> & Hd).
    rewrite (search_dir_path d Hd) in Hp.
    destruct (exists_fs pf fs (MkPath false [d])); [|by apply elem_of_nil in Hp].
    unfold rglob_fs in Hp.
    destruct (locate pf fs (MkPath false [d])) as [e|dloc] eqn:Hloc;
      [by apply elem_of_nil in Hp|].
    apply locate_search_dir in Hloc as [Hcwd ->]; [|done].
    apply list_elem_of_omap in Hp as (k & Hk & Hent). unfold rglob_entry in Hent.
    destruct (strip (cwd pf ++ [d]) k) as [[|c rel]|] eqn:Hs; try done.
    destruct (below fs (cwd pf ++ [d]) (c :: rel)) eqn:Hb; [|done].
    simplify_eq. apply strip_Some in Hs. subst k. rewrite <- app_assoc in *.
    simpl in *. exists d, c, rel. split_and!; try done.
    apply Hlist, list_elem_of_fmap in Hk as ([k n] & Heq & Hkn).
    apply elem_of_map_to_list in Hkn. simpl in Heq. subst k. by rewrite Hkn.
  - intros (d & c & rel & Hd & -> & Hcwd & [n Hk] & Hb).
    exists (MkPath false [d]). split.
    { unfold search_paths. rewrite <- (search_dir_path d Hd).
      by apply list_elem_of_fmap_2. }
    assert (locate pf fs (MkPath false [d]) = inr (cwd pf ++ [d])) as Hloc.
    { unfold locate. simpl. rewrite Hcwd.
      by rewrite step_plain by by apply search_dir_plain. }
    assert (is_dir fs (cwd pf ++ [d]) = true) as Hdir.
    { rewrite below_cons in Hb. by apply andb_true_iff in Hb as [? _]. }
    unfold exists_fs. rewrite Hloc.
    unfold is_dir in Hdir.
    destruct (fs !! (cwd pf ++ [d])) as [[f|]|] eqn:Hdn; try done.
    rewrite bool_decide_eq_true_2 by done.
    unfold rglob_fs. rewrite Hloc. apply list_elem_of_omap.
    exists (cwd pf ++ d :: c :: rel). split.
    + apply Hlist, list_elem_of_fmap. exists (cwd pf ++ d :: c :: rel, n).
      split; [done | by apply elem_of_map_to_list].
    + unfold rglob_entry.
      assert (strip (cwd pf ++ [d]) (cwd pf ++ d :: c :: rel) = Some (c :: rel)) as ->.
      { apply strip_Some. by rewrite <- app_assoc. }
      by rewrite Hb.
Qed.

(** Where an entry leads, when its names are plain. *)
Lemma locate_entry fs d rel :
  d ∈ search_dirs → fs !! cwd pf = Some NDir →
  below fs (cwd pf ++ [d]) rel = true → DOTDOT ∉ rel →
  locate pf fs (MkPath false (d :: rel)) = inr (cwd pf ++ d :: rel).
Proof.
  intros Hd Hcwd Hb Hplain. unfold locate. simpl. rewrite Hcwd.
  rewrite step_plain by by apply search_dir_plain.
  rewrite walk_below by done. by rewrite <- app_assoc.
Qed.
End entries.

Lemma wf_names_spec fs k n :
  wf_names fs = true → fs !! k = Some n → Forall (λ c, proper_name c = true) k.
Proof.
  unfold wf_names. rewrite forallb_forall. intros Hall Hk.
  specialize (Hall (k, n)). simpl in Hall. apply Forall_forall. intros c Hc.
  assert (forallb proper_name k = true) as Hf.
  { apply Hall, list_elem_of_In. by apply elem_of_map_to_list. }
  rewrite forallb_forall in Hf. by apply Hf, list_elem_of_In.
Qed.

Lemma proper_name_spec c :
  proper_name c = true → c ≠ [] ∧ c ≠ lit "." ∧ c ≠ DOTDOT ∧ SLASH ∉ c.
Proof.
  unfold proper_name. rewrite !andb_true_iff, !negb_true_iff, !bool_decide_eq_false.
  tauto.
Qed.

Lemma set_data_same f c : f_data f = c → set_data f c = f.
Proof. destruct f. simpl. by intros ->. Qed.

Lemma NoDup_omap_inj {X Y} (g : X → option Y) l x y i :
  NoDup (omap g l) → x ∈ l → y ∈ l → g x = Some i → g y = Some i → x = y.
Proof.
  induction l as [|a l IH]; intros Hnd Hx Hy Hgx Hgy; [by apply elem_of_nil in Hx|].
  assert (∀ z, z ∈ l → g z = Some i → i ∈ omap g l) as Hin.
  { intros z Hz Hgz. apply list_elem_of_omap. eauto. }
  simpl in Hnd. apply elem_of_cons in Hx as [-> | Hx], Hy as [-> | Hy]; [done|..].
  - rewrite Hgx in Hnd. apply NoDup_cons in Hnd as [Hni _]. destruct Hni. eauto.
  - rewrite Hgy in Hnd. apply NoDup_cons in Hnd as [Hni _]. destruct Hni. eauto.
  - apply IH; try done. destruct (g a); [by apply NoDup_cons in Hnd as [_ ?] | done].
Qed.

Lemma unique_inos_spec fs k1 k2 f1 f2 :
  unique_inos fs → fs !! k1 = Some (NFile f1) → fs !! k2 = Some (NFile f2) →
  f_ino f1 = f_ino f2 → k1 = k2.
Proof.
  intros Hu H1 H2 Hino.
  apply elem_of_map_to_list in H1, H2.
  assert ((k1, NFile f1) = (k2, NFile f2)) as Heq; [|by simplify_eq].
  eapply (NoDup_omap_inj _ _ _ _ (f_ino f1) Hu H1 H2); simpl; [done | by rewrite Hino].
Qed.

Global Instance moved_preorder : PreOrder moved.
Proof.
  split.
  - intros fs q f Hq. by exists q.
  - intros a b c H1 H2 q f Hq. destruct (H2 q f Hq) as (k & Hk). by apply (H1 k).
Qed.

Global Instance kept_preorder : PreOrder kept.
Proof.
  split.
  - intros fs q f Hq. exists q, f. eauto.
  - intros a b c H1 H2 q f'' Hq.
    destruct (H2 q f'' Hq) as (k' & f' & Hk' & Hino' & Hd').
    destruct (H1 k' f' Hk') as (k & f & Hk & Hino & Hd).
    exists k, f. split_and!; [done | congruence |].
    destruct Hd as [-> | ?]; [|by right]. done.
Qed.

Lemma moved_kept fs fs' : moved fs fs' → kept fs fs'.
Proof. intros Hm q f Hq. destruct (Hm q f Hq) as (k & Hk). exists k, f. eauto. Qed.

Lemma shape_unique_inos fs fs' k1 k2 f1 f2 :
  shape_fs fs fs' → unique_inos fs →
  fs' !! k1 = Some (NFile f1) → fs' !! k2 = Some (NFile f2) →
  f_ino f1 = f_ino f2 → k1 = k2.
Proof.
  intros Hs Hu H1 H2 Hino.
  pose proof (Hs k1) as S1. pose proof (Hs k2) as S2. rewrite H1 in S1. rewrite H2 in S2.
  destruct (fs !! k1) as [[g1|]|] eqn:G1; simpl in S1; try done.
  destruct (fs !! k2) as [[g2|]|] eqn:G2; simpl in S2; try done.
  destruct S1 as (I1 & _), S2 as (I2 & _).
  eapply (unique_inos_spec fs); [done..|]. congruence.
Qed.

Section files.
Variable pf : platform.

Lemma move_tree_moved fs ks kd : moved fs (move_tree fs ks kd).
Proof.
  intros q f Hq. unfold move_tree in Hq.
  apply elem_of_list_to_map_2, list_elem_of_fmap in Hq as ([k n] & Heq & Hkn).
  simpl in Heq. injection Heq as _ <-.
  apply elem_of_map_to_list, lookup_delete_Some in Hkn as [_ Hkn]. by exists k.
Qed.

Lemma rename_fs_moved fs src dst fs' :
  rename_fs pf fs src dst = inr fs' → moved fs fs'.
Proof.
  unfold rename_fs. intros Hr.
  destruct (locate pf fs src) as [e|ks]; [done|].
  destruct (locate pf fs dst) as [e|kd]; [done|].
  assert (∀ f, fs !! ks = Some (NFile f) →
               moved fs (<[kd := NFile f]> (delete ks fs))) as Hfile.
  { intros f Hks q f' Hq. destruct (decide (q = kd)) as [-> | Hne].
    - rewrite lookup_insert_eq in Hq. simplify_eq. by exists ks.
    - rewrite lookup_insert_ne in Hq by done.
      apply lookup_delete_Some in Hq as [_ Hq]. by exists q. }
  destruct (fs !! ks) as [[f|]|] eqn:Hks; try done.
  - destruct (f_move f); [done|].
    destruct (bool_decide (ks = kd)); [by simplify_eq|].
    destruct (fs !! kd) as [[g|]|]; [destruct (posix pf)| |];
      simplify_eq; by apply Hfile.
  - destruct (bool_decide (ks = kd)); [by simplify_eq|].
    destruct (strip ks kd); [done|].
    destruct (fs !! kd) as [[g|]|]; [done| |].
    + destruct (posix pf && negb (has_children fs kd)); [|done].
      simplify_eq. apply move_tree_moved.
    + simplify_eq. apply move_tree_moved.
Qed.

Lemma write_after_read_kept fs p c s fs' :
  read_fs pf fs p = inr c → write_fs pf fs p s = inr fs' → kept fs fs'.
Proof.
  intros Hr Hw.
  destruct (write_after_read pf _ _ _ _ _ Hr Hw)
    as (k & f & _ & Hk & _ & Hd & _ & ->).
  intros q f' Hq. destruct (decide (q = k)) as [-> | Hne].
  - rewrite lookup_insert_eq in Hq. simplify_eq. exists k, f. eauto.
  - rewrite lookup_insert_ne in Hq by done. exists q, f'. eauto.
Qed.

Lemma rename_loop_moved files v1 v2 w :
  moved (w_fs w) (w_fs (rename_loop pf files v1 v2 w).2).
Proof.
  apply (rename_loop_fs_inv pf (moved (w_fs w))); [|reflexivity].
  intros p fs fs' n l _ _ _ Hm Hr. etrans; [done|]. by eapply rename_fs_moved.
Qed.

(** Whatever a run does, every file it leaves is a file it found, and
    only texts have changed. *)
Lemma main_kept w : kept (w_fs w) (w_fs (main pf w).2).
Proof.
  apply main_fs_rel; [apply _| |].
  - intros v1 v2 w1 wa _ Hwa. rewrite <- Hwa.
    apply (update_loop_fs_inv pf (kept (w_fs wa))); [|reflexivity].
    intros p fs fs' n l c _ _ _ Hk Hr Hw. etrans; [done|].
    by eapply write_after_read_kept.
  - intros v1 v2 w1 wa _ Hwa. etrans; [done|]. apply moved_kept, rename_loop_moved.
Qed.
End files.

Section effect.
Variable pf : platform.
Variables (k : location) (f : file) (c n l : str).
Hypothesis f_text : f_data f = Text c.
Hypothesis f_readable : f_read f = None.
Hypothesis f_writable : f_write f = None.
Hypothesis safe : safe_values n l = true.

(** An update of the file at [k], be it for the first time or again,
    leaves it rewritten. *)
Lemma update_at x w :
  locate pf (w_fs w) x = inr k →
  w_fs w !! k = Some (NFile f) ∨ w_fs w !! k = Some (NFile (rewritten f c n l)) →
  ∃ b w', update_file_content pf x (PStr n) (PStr l) w = (Ok b, w')
          ∧ w_fs w' !! k = Some (NFile (rewritten f c n l)).
Proof using f_text f_readable f_writable safe.
  intros Hloc Hk. rewrite update_file_content_eq. cbv zeta.
  unfold read_fs, write_fs. rewrite Hloc. destruct Hk as [Hk | Hk]; rewrite Hk.
  - rewrite f_readable, f_text. case_bool_decide as Hne.
    + rewrite f_writable. eexists _, _. split; [done|]. simpl.
      by rewrite lookup_insert_eq.
    + eexists _, _. split; [done|]. simpl. rewrite Hk. do 2 f_equal.
      symmetry. apply set_data_same. rewrite f_text. f_equal.
      by destruct (decide (substitute c n l = c)).
  - simpl. rewrite f_readable. rewrite substitute_idempotent by done.
    rewrite bool_decide_eq_false_2 by (intros H; by apply H).
    by eexists _, _.
Qed.

(** An update of a file elsewhere leaves the file at [k] alone. *)
Lemma update_other x v1 v2 w :
  locate pf (w_fs w) x ≠ inr k →
  w_fs (update_file_content pf x v1 v2 w).2 !! k = w_fs w !! k.
Proof.
  intros Hloc.
  destruct (update_file_content_fs pf x v1 v2 w)
    as [-> | (n' & l' & c' & _ & _ & Hr & Hw)]; [done|].
  destruct (write_after_read pf _ _ _ _ _ Hr Hw)
    as (k' & f' & Hk' & _ & _ & _ & _ & ->).
  apply lookup_insert_ne. congruence.
Qed.

Lemma for_each_update_effect fs0 p files acc w r w' :
  locate pf fs0 p = inr k →
  for_each files
    (λ content_updated file_path,
       changed <- update_file_content pf file_path (PStr n) (PStr l);;
       if changed : bool then
         print (MsgUpdated file_path);; ret (S content_updated)
       else ret content_updated)
    acc w = (Ok r, w') →
  shape_fs fs0 (w_fs w) →
  w_fs w !! k = Some (NFile f) ∨ w_fs w !! k = Some (NFile (rewritten f c n l)) →
  p ∈ files ∨ w_fs w !! k = Some (NFile (rewritten f c n l)) →
  w_fs w' !! k = Some (NFile (rewritten f c n l)).
Proof using f_text f_readable f_writable safe.
  intros Hp. revert acc w. induction files as [|x files IH];
    intros acc w Hrun Hs Hk Hin; simpl in Hrun.
  { destruct Hin as [Hin | Hin]; [by apply elem_of_nil in Hin|].
    unfold ret in Hrun. by simplify_eq. }
  unfold bind at 1 in Hrun.
  pose proof (update_file_content_shape pf x (PStr n) (PStr l) w) as Hs1.
  unfold shape in Hs1.
  assert (locate pf (w_fs w) x = inr k ∨ locate pf (w_fs w) x ≠ inr k)
    as [Hx | Hx].
  { destruct (locate pf (w_fs w) x) as [e|kx]; [by right|].
    destruct (decide (kx = k)) as [-> | Hne]; [by left | right; congruence]. }
  - destruct (update_at x w Hx Hk) as (b & w1 & Hu & Hk1).
    rewrite Hu in Hs1. simpl in Hs1. unfold bind at 1 in Hrun. rewrite Hu in Hrun.
    destruct b; simpl in Hrun.
    + eapply IH; [exact Hrun | by etrans | by right | by right].
    + eapply IH; [exact Hrun | by etrans | by right | by right].
  - pose proof (update_other x (PStr n) (PStr l) w Hx) as Hk1.
    unfold bind at 1 in Hrun.
    destruct (update_file_content pf x (PStr n) (PStr l) w) as [[b|e] w1];
      cbn [fst snd] in *; [|done].
    assert (p ∈ files ∨ w_fs w1 !! k = Some (NFile (rewritten f c n l))) as Hin1.
    { destruct Hin as [Hin | Hin]; [|right; by rewrite Hk1].
      apply elem_of_cons in Hin as [-> | Hin]; [|by left].
      destruct Hx. by rewrite (locate_shape pf _ _ _ Hs). }
    destruct b; simpl in Hrun;
      (eapply IH; [exact Hrun | by etrans | cbn [w_fs add_msg]; by rewrite Hk1 | done]).
Qed.

Lemma update_loop_effect p files w r w' :
  locate pf (w_fs w) p = inr k →
  w_fs w !! k = Some (NFile f) →
  p ∈ files →
  update_loop pf files (PStr n) (PStr l) w = (Ok r, w') →
  w_fs w' !! k = Some (NFile (rewritten f c n l)).
Proof using f_text f_readable f_writable safe.
  intros Hp Hk Hin Hrun. unfold update_loop in Hrun.
  eapply (for_each_update_effect (w_fs w)); [done | exact Hrun | reflexivity | eauto..].
Qed.
End effect.

Section completed.
Variable pf : platform.

(** A run that returns [None] went through the four stages. *)
Lemma main_completed w w' :
  main pf w = (Ok None, w') →
  ∃ v1 v2 w1 w2 c w4 r w5,
    load_block pf (add_msg w MsgStarting) = (Ok (Some (v1, v2)), w1)
    ∧ w_fs w2 = w_fs w
    ∧ update_loop pf (content_candidates pf (w_fs w)) v1 v2
        (after_scan w2 (content_candidates pf (w_fs w))
           (name_candidates pf (w_fs w))) = (Ok c, w4)
    ∧ rename_loop pf (name_candidates pf (w_fs w)) v1 v2 (add_msg w4 MsgRenaming)
      = (Ok r, w5)
    ∧ w' = after_renames w5 c r.
Proof.
  intros Hmain. pose proof (main_outcome pf w) as Hout.
  rewrite Hmain in Hout. cbn [fst snd] in Hout.
  remember (Ok None) as res eqn:Hres. remember w' as wf eqn:Hwf.
  destruct Hout as [w1 Hload|v1 v2 w1 e w2 Hload Hscan
    |v1 v2 w1 w2 e w4 Hload Hscan Hu|v1 v2 w1 w2 c w4 r w5 Hload Hscan Hu Hr];
    try done.
  destruct r as [r|e]; [|done]. subst.
  exists v1, v2, w1, w2, c, w4, r, w5. split_and!; try done.
  pose proof (load_block_same_fs pf (add_msg w MsgStarting)) as Hfs1.
  rewrite Hload in Hfs1. unfold same_fs in Hfs1. simpl in Hfs1.
  pose proof (find_files_with_placeholders_spec pf (add_msg w1 MsgSearching))
    as [[Hfs2 _] _]. rewrite Hscan in Hfs2. simpl in Hfs2. congruence.
Qed.

(** A text below a searched directory that holds a token is a content
    candidate. *)
Lemma text_is_content_candidate fs d rel f c :
  faithful_listing pf →
  d ∈ search_dirs → rel ≠ [] →
  fs !! cwd pf = Some NDir →
  below fs (cwd pf ++ [d]) rel = true → DOTDOT ∉ rel →
  fs !! (cwd pf ++ d :: rel) = Some (NFile f) →
  f_data f = Text c → f_read f = None → has_placeholder c = true →
  MkPath false (d :: rel) ∈ content_candidates pf fs.
Proof.
  intros Hlist Hd Hrel Hcwd Hb Hplain Hk Hdata Hread Hph.
  apply elem_of_content_candidates. split.
  - destruct rel as [|c0 rel]; [done|]. apply elem_of_entries; [done|].
    exists d, c0, rel. split_and!; try done.
  - unfold content_match, is_file_fs, read_fs, is_reg.
    rewrite (locate_entry pf fs d rel) by done.
    by rewrite Hk, Hread, Hdata, Hph.
Qed.
End completed.

Lemma faithful_demo : faithful_listing demo_pf.
Proof. by intros ks x. Qed.

(** ** Names without separators *)

Lemma elem_of_join {A} (x : A) sep ps :
  x ∈ PyStr.join sep ps → x ∈ sep ∨ ∃ p, p ∈ ps ∧ x ∈ p.
Proof.
  induction ps as [|p ps IH]; simpl; [by intros ?%elem_of_nil|].
  destruct ps as [|q ps].
  - intros Hx. right. exists p. split; [by left | done].
  - rewrite !elem_of_app. intros [Hx | [Hx | Hx]].
    + right. exists p. split; [by left | done].
    + by left.
    + destruct (IH Hx) as [? | (p' & Hp' & ?)]; [by left|].
      right. exists p'. split; [by right | done].
Qed.

Lemma elem_of_join_piece {A} (x : A) sep ps p :
  p ∈ ps → x ∈ p → x ∈ PyStr.join sep ps.
Proof.
  induction ps as [|q ps IH]; [by intros ?%elem_of_nil|].
  intros Hp Hx. simpl. destruct ps as [|q' ps].
  - apply list_elem_of_singleton in Hp as ->. done.
  - rewrite !elem_of_app. apply elem_of_cons in Hp as [-> | Hp]; [by left|].
    right. right. by apply IH.
Qed.

Lemma replace_elem_of (x : ascii) s old new :
  old ≠ [] → x ∈ PyStr.replace s old new → x ∈ new ∨ x ∈ s.
Proof.
  intros Hold Hx.
  destruct (replace_pieces old new s Hold) as (ps & Hs & Hr & _ & _).
  rewrite Hr in Hx. apply elem_of_join in Hx as [? | (p & Hp & Hx)]; [by left|].
  right. rewrite Hs. by eapply elem_of_join_piece.
Qed.

Lemma substitute_slash_free s n l :
  SLASH ∉ s → SLASH ∉ n → SLASH ∉ l → SLASH ∉ substitute s n l.
Proof.
  intros Hs Hn Hl Hx. unfold substitute in Hx.
  apply replace_elem_of in Hx as [? | Hx]; [done | | done].
  apply replace_elem_of in Hx as [? | ?]; done.
Qed.

Lemma split_sep_absent sep s : sep ∉ s → split_sep sep s = [s].
Proof.
  induction s as [|c s IH]; [done|]. intros [Hc Hs]%not_elem_of_cons. simpl.
  rewrite bool_decide_eq_false_2 by done. by rewrite IH.
Qed.

Lemma path_of_slash_free s :
  SLASH ∉ s →
  path_of s = MkPath false [] ∨ path_of s = MkPath false [s].
Proof.
  intros Hs. unfold path_of. rewrite split_sep_absent by done.
  assert (PyStr.startswith s [SLASH] = false) as ->.
  { destruct s as [|c s]; [done|]. apply not_elem_of_cons in Hs as [Hc _].
    simpl. by rewrite bool_decide_eq_false_2. }
  rewrite filter_cons, filter_nil. case_decide; [by right | by left].
Qed.

Lemma removelast_snoc {A} (l : list A) x : removelast (l ++ [x]) = l.
Proof. apply removelast_last. Qed.

Lemma list_snoc_cases {A} (l : list A) : l = [] ∨ ∃ l' x, l = l' ++ [x].
Proof.
  induction l as [|a l IH] using rev_ind; [by left | right; eauto].
Qed.

Lemma walk_parent_dir fs cur comps k :
  comps ≠ [] → DOTDOT ∉ comps → walk fs cur comps = inr k →
  fs !! removelast k = Some NDir.
Proof.
  intros Hne Hplain Hw.
  destruct (list_snoc_cases comps) as [-> | (init & y & ->)]; [done|].
  apply walk_snoc_inv in Hw as (k0 & Hw0 & Hdir & ->).
  rewrite step_plain; [by rewrite removelast_snoc|].
  intros ->. apply Hplain. apply elem_of_app. right. by left.
Qed.

Lemma searched_spec pf k :
  searched pf k ↔ ∃ d rel, d ∈ search_dirs ∧ rel ≠ [] ∧ k = cwd pf ++ d :: rel.
Proof.
  unfold searched, searchedb. split.
  - destruct (strip (cwd pf) k) as [[|d [|c rel]]|] eqn:Hs; try done.
    intros Hd%bool_decide_eq_true. apply strip_Some in Hs.
    by exists d, (c :: rel).
  - intros (d & rel & Hd & Hrel & ->).
    assert (strip (cwd pf) (cwd pf ++ d :: rel) = Some (d :: rel)) as ->
      by by apply strip_Some.
    destruct rel; [done|]. by apply bool_decide_eq_true.
Qed.

Section target.
Variable pf : platform.

(** The target of the rename of an entry, when the new name holds no
    separator: a directory on the way to the entry, or a location
    below the searched directory. *)
Lemma rename_target fs d rel s ks kd :
  d ∈ search_dirs → rel ≠ [] → DOTDOT ∉ rel → SLASH ∉ s →
  locate pf fs (MkPath false (d :: rel)) = inr ks →
  locate pf fs (truediv (parent (MkPath false (d :: rel))) s) = inr kd →
  fs !! kd = Some NDir ∨ searched pf kd.
Proof.
  intros Hd Hrel Hplain Hs Hsrc Hdst.
  destruct (list_snoc_cases rel) as [-> | (init & y & ->)]; [done|].
  assert (DOTDOT ∉ d :: init) as Hpp.
  { apply not_elem_of_cons. split; [by apply not_eq_sym, search_dir_plain|].
    intros Hin. apply Hplain. apply elem_of_app. by left. }
  unfold locate in Hsrc. cbn [p_absolute p_parts] in Hsrc.
  change (d :: init ++ [y]) with ((d :: init) ++ [y]) in Hsrc.
  apply walk_snoc_inv in Hsrc as (k0 & Hw0 & Hdir0 & _).
  pose proof (walk_plain _ _ _ _ Hpp Hw0) as ->.
  assert (parent (MkPath false (d :: init ++ [y])) = MkPath false (d :: init))
    as Hparent.
  { unfold parent. cbn [p_absolute p_parts].
    change (d :: init ++ [y]) with ((d :: init) ++ [y]).
    by rewrite removelast_snoc. }
  rewrite Hparent in Hdst. unfold truediv, locate in Hdst.
  destruct (path_of_slash_free s Hs) as [Hq | Hq]; rewrite Hq in Hdst;
    cbn [p_absolute p_parts] in Hdst.
  - rewrite app_nil_r in Hdst. left. rewrite Hw0 in Hdst. by simplify_eq.
  - apply walk_snoc_inv in Hdst as (k1 & Hw1 & Hdir1 & ->).
    rewrite Hw0 in Hw1. injection Hw1 as <-.
    destruct (decide (s = DOTDOT)) as [-> | Hsd].
    + left. unfold step. rewrite bool_decide_eq_true_2 by done.
      by eapply (walk_parent_dir fs (cwd pf) (d :: init)).
    + right. rewrite step_plain by done. apply searched_spec.
      exists d, (init ++ [s]). split_and!; [done | by destruct init |].
      by rewrite <- app_assoc.
Qed.
End target.

Global Instance framed_refl pf : Reflexive (framed pf).
Proof. intros fs. split; [reflexivity | by intros k]. Qed.

Section frame.
Variable pf : platform.
Hypothesis faithful : faithful_listing pf.

(** Where a candidate is: below a searched directory, under plain
    names. *)
Lemma entry_location fs p :
  wf_names fs = true → p ∈ entries pf fs →
  ∃ d rel, d ∈ search_dirs ∧ rel ≠ [] ∧ (DOTDOT ∉ rel)
           ∧ p = MkPath false (d :: rel)
           ∧ locate pf fs p = inr (cwd pf ++ d :: rel)
           ∧ SLASH ∉ name p.
Proof using faithful.
  intros Hwf Hp. apply elem_of_entries in Hp
    as (d & c & rel & Hd & -> & Hcwd & [n Hk] & Hb); [|done].
  pose proof (wf_names_spec _ _ _ Hwf Hk) as Hproper.
  apply Forall_app in Hproper as [_ Hproper].
  apply Forall_cons in Hproper as [_ Hproper].
  assert (∀ x, x ∈ c :: rel → x ≠ DOTDOT ∧ SLASH ∉ x) as Hx.
  { intros x Hin. rewrite Forall_forall in Hproper.
    apply Hproper, proper_name_spec in Hin. tauto. }
  assert (DOTDOT ∉ c :: rel) as Hplain.
  { intros Hin. by destruct (Hx _ Hin). }
  exists d, (c :: rel). split_and!; try done.
  - by apply locate_entry.
  - unfold name. cbn [p_parts].
    destruct (list_snoc_cases (c :: rel)) as [? | (init & y & Heq)]; [done|].
    rewrite Heq. change (d :: init ++ [y]) with ((d :: init) ++ [y]).
    rewrite last_last. apply Hx. rewrite Heq. apply elem_of_app. right. by left.
Qed.

Lemma update_loop_framed fs0 v1 v2 wa :
  wf_names fs0 = true → w_fs wa = fs0 →
  framed pf fs0 (w_fs (update_loop pf (content_candidates pf fs0) v1 v2 wa).2).
Proof using faithful.
  intros Hwf Hwa.
  assert (shape_fs fs0 (w_fs (update_loop pf (content_candidates pf fs0) v1 v2 wa).2)
          ∧ outside_same pf fs0
              (w_fs (update_loop pf (content_candidates pf fs0) v1 v2 wa).2))
    as [Hs Ho]; [|split; [by apply shape_dirs_same | done]].
  apply (update_loop_fs_inv pf (λ fs, shape_fs fs0 fs ∧ outside_same pf fs0 fs)).
  2:{ rewrite Hwa. split; [reflexivity | by intros k]. }
  intros p fs fs' n l c _ _ Hp [Hs Ho] Hr Hw.
  apply elem_of_content_candidates in Hp as [Hp _].
  destruct (entry_location fs0 p Hwf Hp) as (d & rel & Hd & Hrel & _ & _ & Hloc & _).
  destruct (write_after_read pf _ _ _ _ _ Hr Hw)
    as (k & f & Hk & Hfk & _ & _ & _ & ->).
  rewrite (locate_shape pf _ _ _ Hs), Hloc in Hk. injection Hk as <-.
  split.
  - etrans; [done|]. by apply shape_fs_set_data.
  - intros k Hout. rewrite lookup_insert_ne; [by apply Ho|].
    intros <-. apply Hout, searched_spec. by exists d, rel.
Qed.

Lemma rename_loop_framed fs0 v1 v2 wa :
  wf_names fs0 = true → slash_free v1 → slash_free v2 →
  framed pf fs0 (w_fs wa) →
  framed pf fs0 (w_fs (rename_loop pf (name_candidates pf fs0) v1 v2 wa).2).
Proof using faithful.
  intros Hwf Hv1 Hv2. apply rename_loop_fs_inv.
  intros p fs fs' n l -> -> Hp [Hd Ho] Hr. simpl in Hv1, Hv2.
  pose proof (name_candidates_is_file pf _ _ Hp) as Hfile.
  apply elem_of_name_candidates in Hp as [Hp _].
  destruct (entry_location fs0 p Hwf Hp)
    as (d & rel & Hdir & Hrel & Hplain & -> & Hloc & Hname).
  assert (∀ k, locate pf fs (MkPath false (d :: rel)) = inr k →
               fs !! k ≠ Some NDir) as Hnd.
  { intros k Hk Hkd. unfold is_file_fs, is_reg in Hfile.
    symmetry in Hd. rewrite (locate_dirs_same pf _ _ _ _ Hd Hk) in Hfile.
    apply Hd in Hkd. by rewrite Hkd in Hfile. }
  destruct (rename_fs_file pf _ _ _ _ Hr Hnd)
    as [-> | (ks & kd & f & Hks & Hkd & Hfs & Hne & Hnotdir & _ & _ & ->)];
    [done|].
  rewrite (locate_dirs_same pf _ _ _ _ Hd Hloc) in Hks. injection Hks as <-.
  assert (searched pf kd) as Hsk.
  { destruct (rename_target pf fs d rel _ _ kd Hdir Hrel Hplain
                (substitute_slash_free _ _ _ Hname Hv1 Hv2)
                (locate_dirs_same pf _ _ _ _ Hd Hloc) Hkd); done. }
  split.
  - etrans; [done|]. eapply rename_fs_dirs_same; done.
  - intros k Hout.
    rewrite lookup_insert_ne; [|intros <-; done].
    rewrite lookup_delete_ne; [by apply Ho|].
    intros <-. apply Hout, searched_spec. by exists d, rel.
Qed.

(** With plain names in the tree and no separator in the values, a run
    leaves the locations that are not searched as they were. *)
Lemma main_framed w :
  wf_names (w_fs w) = true →
  (∀ v1 v2 w1,
     load_block pf (add_msg w MsgStarting) = (Ok (Some (v1, v2)), w1) →
     slash_free v1 ∧ slash_free v2) →
  framed pf (w_fs w) (w_fs (main pf w).2).
Proof using faithful.
  intros Hwf Hvals. apply main_fs_rel; [apply _| |].
  - intros v1 v2 w1 wa _ Hwa. by apply update_loop_framed.
  - intros v1 v2 w1 wa Hload Hwa. destruct (Hvals _ _ _ Hload).
    by apply rename_loop_framed.
Qed.
End frame.

(** * The claims of the specification *)

(** ** C1: the tokens of a text file are replaced *)




(** ** C2: idempotence of the content rewriting *)

(** C2, as stated, fails: with the name [a] and the label
    [__PROJECT_NAME__], rewriting [__PROJECT_LABEL__] gives
    [__PROJECT_NAME__], and rewriting that again gives [a]; a second run
    with the same configuration changes the file again. *)
Lemma C2_counterexample :
  substitute (substitute TOKEN_LABEL (lit "a") TOKEN_NAME) (lit "a") TOKEN_NAME
  ≠ substitute TOKEN_LABEL (lit "a") TOKEN_NAME
  ∧ w_fs (run demo_pf world_swap).2 !! in_force_app "a.txt"
    = Some (NFile (plain_file 2 (Text TOKEN_NAME)))
  ∧ w_fs (run demo_pf (run demo_pf world_swap).2).2 !! in_force_app "a.txt"
    = Some (NFile (plain_file 2 (Text (lit "a")))).
Proof. split; [vm_compute; discriminate | vm_compute; done]. Qed.

(** C2, amended: when the configured values are safe (each is non-empty,
    neither contains nor lies inside the token it replaces, and none of
    its ends matches the facing end of that token; the label is safe for
    both tokens), the two-token replacement applied to its own result
    leaves it unchanged, and [update_file_content] on a file that holds
    such a result reads it and writes nothing. *)
Theorem C2_rewriting_idempotent pf p n l s w :
  safe_values n l = true →
  substitute (substitute s n l) n l = substitute s n l
  ∧ (read_fs pf (w_fs w) p = inr (substitute s n l) →
     update_file_content pf p (PStr n) (PStr l) w
     = (Ok false, add_event w (EvRead p))).
Proof.
  intros Hs. pose proof (substitute_idempotent s n l Hs) as Hid.
  split; [done|]. intros Hr. rewrite update_file_content_eq, Hr. cbv zeta.
  rewrite Hid. by rewrite bool_decide_eq_false_2 by (intros H; by apply H).
Qed.

(** C2 on the name token, with the values of the example. *)
Lemma C2_witness :
  substitute (substitute TOKEN_NAME ACME ACME_LABEL) ACME ACME_LABEL
  = substitute TOKEN_NAME ACME ACME_LABEL.
Proof.
  apply (C2_rewriting_idempotent demo_pf (force_app_path "a.txt") ACME ACME_LABEL
           TOKEN_NAME world_acme).
  vm_compute. reflexivity.
Defined.

(** ** C3: the exit status *)




(** ** C4: failures of the content rewriter *)

(** C4, as stated, fails: a write that fails with an error that is
    neither a decoding error nor a refusal of access is not caught; the
    error leaves [update_file_content] and [main], and the run stops. *)
Lemma C4_counterexample :
  (update_file_content demo_pf (force_app_path "a.txt") (PStr ACME)
     (PStr ACME_LABEL) world_read_only).1 = Raise OSError
  ∧ (main demo_pf world_read_only).1 = Raise OSError.
Proof. vm_compute. done. Qed.

(** C4, amended: a failure of the read or of the write of a candidate
    that is a decoding error or a refusal of access is caught: the
    update returns [False], a warning is printed, the file system is
    left as it was, and the loop goes on with the other candidates. *)
Theorem C4_caught_failures pf p n l e rest w :
  is_decode_or_permission e = true →
  (read_fs pf (w_fs w) p = inl e
   ∨ ∃ c, read_fs pf (w_fs w) p = inr c ∧ substitute c n l ≠ c
          ∧ write_fs pf (w_fs w) p (substitute c n l) = inl e) →
  ∃ w', update_file_content pf p (PStr n) (PStr l) w = (Ok false, w')
        ∧ w_fs w' = w_fs w
        ∧ w_out w' = w_out w ++ [MsgWarnUpdate p e]
        ∧ update_loop pf (p :: rest) (PStr n) (PStr l) w
          = update_loop pf rest (PStr n) (PStr l) w'.
Proof.
  intros He Hfail.
  assert (∃ w', update_file_content pf p (PStr n) (PStr l) w = (Ok false, w')
                ∧ w_fs w' = w_fs w ∧ w_out w' = w_out w ++ [MsgWarnUpdate p e])
    as (w' & Hu & Hfs & Hout).
  { rewrite update_file_content_eq. cbv zeta.
    destruct Hfail as [Hr | (c & Hr & Hne & Hw)]; rewrite Hr.
    - rewrite He. by eexists.
    - rewrite bool_decide_eq_true_2 by done. rewrite Hw, He. by eexists. }
  exists w'. split_and!; [done..|].
  unfold update_loop. simpl. by rewrite (bind_ok _ _ _ _ _ (bind_ok _ _ _ _ _ Hu)).
Qed.

(** C4 on a file whose bytes do not decode. *)
Lemma C4_witness :
  ∃ w', update_file_content demo_pf (force_app_path "logo.bin") (PStr ACME)
          (PStr ACME_LABEL) world_binary = (Ok false, w')
        ∧ w_fs w' = w_fs world_binary
        ∧ w_out w' = w_out world_binary
                     ++ [MsgWarnUpdate (force_app_path "logo.bin") UnicodeDecodeError]
        ∧ update_loop demo_pf [force_app_path "logo.bin"] (PStr ACME)
            (PStr ACME_LABEL) world_binary
          = update_loop demo_pf [] (PStr ACME) (PStr ACME_LABEL) w'.
Proof.
  apply (C4_caught_failures demo_pf (force_app_path "logo.bin") ACME ACME_LABEL
           UnicodeDecodeError [] world_binary).
  - reflexivity.
  - left. vm_compute. reflexivity.
Defined.

(** ** C5: failures of the renamer *)



(** ** C6: renames come after the content updates *)

(** C6: the file-system calls of a run are, in this order, calls that
    are no renames (the reads of the scan, the reads and the writes of
    the content updates) and then renames; so every read and every write
    of a content candidate comes before every rename. *)
Theorem C6_renames_after_updates pf w :
  ∃ updates renames,
    w_trace (run pf w).2 = w_trace w ++ updates ++ renames
    ∧ Forall quiet updates ∧ Forall moving renames.
Proof. rewrite run_world. apply main_two_phases. Qed.

(** ** C7: what a run leaves alone *)




(** ** C8: the configuration loader *)




(** ** C9: name candidates are chosen without reading *)



(** The file of bytes is renamed by the run, with its bytes. *)
Example binary_file_renamed :
  w_fs (run demo_pf world_binary_named).2 !! in_force_app "Acme.bin"
  = Some (NFile (plain_file 2 (Binary [Byte.x80]))).
Proof. vm_compute. reflexivity. Qed.

(** ** C10: directories are never candidates *)

(** C10: a directory is left where it is by a run; no candidate of
    either scan is anything but a regular file, so none leads to the
    directory; and every rename the run calls has a name candidate as
    its source. *)
Theorem C10_directories_kept pf w k :
  w_fs w !! k = Some NDir →
  w_fs (run pf w).2 !! k = Some NDir
  ∧ (∀ p, p ∈ content_candidates pf (w_fs w) ∨ p ∈ name_candidates pf (w_fs w) →
          is_file_fs pf (w_fs w) p = true ∧ locate pf (w_fs w) p ≠ inr k)
  ∧ ∃ updates renames,
      w_trace (run pf w).2 = w_trace w ++ updates ++ renames
      ∧ Forall quiet updates
      ∧ Forall (renames_of (name_candidates pf (w_fs w))) renames.
Proof.
  intros Hk. rewrite run_world. split_and!.
  - by apply (main_dirs_same pf w).
  - intros p Hp.
    assert (is_file_fs pf (w_fs w) p = true) as Hf.
    { destruct Hp; [by apply content_candidates_is_file
                   | by apply name_candidates_is_file]. }
    split; [done|]. intros Hl. unfold is_file_fs, is_reg in Hf.
    by rewrite Hl, Hk in Hf.
  - apply main_trace.
Qed.

(** C10 on a directory with a token in its name. *)
Lemma C10_witness :
  w_fs (run demo_pf world_token_dir).2 !! in_force_app "__PROJECT_NAME__"
  = Some NDir.
Proof.
  apply (C10_directories_kept demo_pf world_token_dir
           (in_force_app "__PROJECT_NAME__")).
  vm_compute. reflexivity.
Defined.

(** * Further properties of the script *)

(** ** The content rewriter on one file *)

Section rewriter.
Variable pf : platform.

Lemma has_placeholder_false c :
has_placeholder c = false →
¬ PyStr.infix TOKEN_NAME c ∧ ¬ PyStr.infix TOKEN_LABEL c.
Proof.
unfold has_placeholder. rewrite orb_false_iff. intros [H1 H2].
split; intros Hi; apply contains_infix in Hi; congruence.
Qed.

Lemma has_placeholder_true c :
has_placeholder c = true →
PyStr.infix TOKEN_NAME c ∨ PyStr.infix TOKEN_LABEL c.
Proof.
unfold has_placeholder. rewrite orb_true_iff.
intros [H|H]; apply contains_infix in H; auto.
Qed.

(** With safe values, a text that holds a token is changed by the two
  replacements. *)
Lemma substitute_changes c n l :
safe_values n l = true → has_placeholder c = true → substitute c n l ≠ c.
Proof.
intros Hs Hc Heq. destruct (substitute_clean c n l Hs) as [H1 H2].
rewrite Heq in H1, H2. by destruct (has_placeholder_true c Hc).
Qed.

(** A non-string value makes the first or the second replacement fail,
  after the read and before any write. *)
Lemma update_file_content_type_error p v1 v2 c w :
read_fs pf (w_fs w) p = inr c → both_str v1 v2 = false →
update_file_content pf p v1 v2 w = (Raise TypeError, add_event w (EvRead p)).
Proof.
intros Hr Hv. unfold update_file_content, try_except, open_read, bind, log,
  get_fs, lift, str_replace. cbn [w_fs]. rewrite Hr.
destruct v1, v2; simpl in *; try done.
Qed.
End rewriter.

(** X1: a file that is read and holds neither token is left alone by
    [update_file_content]: the result is [False], nothing is written and
    nothing is printed, whatever the two strings are. *)
Theorem update_without_token pf p n l c w :
  read_fs pf (w_fs w) p = inr c → has_placeholder c = false →
  update_file_content pf p (PStr n) (PStr l) w
  = (Ok false, add_event w (EvRead p)).
Proof.
  intros Hr Hc. destruct (has_placeholder_false c Hc) as [H1 H2].
  rewrite update_file_content_eq, Hr. cbv zeta.
  rewrite (substitute_absent c n l H1 H2).
  by rewrite bool_decide_eq_false_2 by (intros H; by apply H).
Qed.

(** X1 on a text without tokens. *)
Lemma update_without_token_witness :
  update_file_content demo_pf (MkPath false [lit "cumulusci.yml"]) (PStr ACME)
    (PStr ACME_LABEL) world_acme
  = (Ok false, add_event world_acme (EvRead (MkPath false [lit "cumulusci.yml"]))).
Proof.
  apply (update_without_token demo_pf (MkPath false [lit "cumulusci.yml"])
           ACME ACME_LABEL (lit "acme") world_acme).
  - vm_compute. reflexivity.
  - vm_compute. reflexivity.
Defined.



(** ** The renamer on one file *)

(** X3: a file whose name holds neither token is left alone by
    [rename_file]: the path is returned as it is, no rename is called
    and nothing is printed, whatever the two strings are. *)
Theorem rename_without_token pf p n l w :
  has_placeholder (name p) = false →
  rename_file pf p (PStr n) (PStr l) w = (Ok p, w).
Proof.
  intros Hc. destruct (has_placeholder_false _ Hc) as [H1 H2].
  rewrite rename_file_eq. cbv zeta. rewrite (substitute_absent _ n l H1 H2).
  by rewrite bool_decide_eq_false_2 by (intros H; by apply H).
Qed.

(** X3 on the configuration file. *)
Lemma rename_without_token_witness :
  rename_file demo_pf (MkPath false [lit "cumulusci.yml"]) (PStr ACME)
    (PStr ACME_LABEL) world_acme
  = (Ok (MkPath false [lit "cumulusci.yml"]), world_acme).
Proof.
  apply (rename_without_token demo_pf (MkPath false [lit "cumulusci.yml"])
           ACME ACME_LABEL world_acme).
  vm_compute. reflexivity.
Defined.

Section in_place.
Variable pf : platform.

Lemma below_last fs cur init x y :
below fs cur (init ++ [x]) = below fs cur (init ++ [y]).
Proof.
revert cur. induction init as [|c init IH]; intros cur.
- cbn [app]. rewrite !below_cons. unfold below. done.
- rewrite <- !app_comm_cons, !below_cons. by rewrite IH.
Qed.

Lemma path_of_proper s : proper_name s = true → path_of s = MkPath false [s].
Proof.
intros Hs. apply proper_name_spec in Hs as (Hne & Hdot & _ & Hsl).
unfold path_of. rewrite split_sep_absent by done.
assert (PyStr.startswith s [SLASH] = false) as ->.
{ destruct s as [|c s]; [done|]. apply not_elem_of_cons in Hsl as [Hc _].
  simpl. by rewrite bool_decide_eq_false_2. }
rewrite filter_cons, filter_nil. by rewrite decide_True.
Qed.

Lemma name_snoc a init base : name (MkPath a (init ++ [base])) = base.
Proof. unfold name. cbn [p_parts]. apply last_last. Qed.

Lemma parent_snoc a init base :
parent (MkPath a (init ++ [base])) = MkPath a init.
Proof. unfold parent. cbn [p_absolute p_parts]. by rewrite removelast_last. Qed.
End in_place.

(** X4: the rename of a file keeps it in its directory.  For a regular
    file below a searched directory that may be moved, whose base name
    changes under the two replacements into a proper name (not empty,
    not [.] or [..], no separator), when the new name is free, or held
    by a regular file on POSIX, [rename_file] returns the path with the
    new base name in the same directory, the file is found there as it
    was, the old location is empty, and every other location holds what
    it held. *)
Theorem rename_in_place pf w d init base f n l :
  d ∈ search_dirs →
  w_fs w !! cwd pf = Some NDir →
  below (w_fs w) (cwd pf ++ [d]) (init ++ [base]) = true →
  DOTDOT ∉ init → base ≠ DOTDOT →
  w_fs w !! (cwd pf ++ d :: init ++ [base]) = Some (NFile f) →
  f_move f = None →
  substitute base n l ≠ base → proper_name (substitute base n l) = true →
  (w_fs w !! (cwd pf ++ d :: init ++ [substitute base n l]) = None
   ∨ posix pf = true
     ∧ ∃ g, w_fs w !! (cwd pf ++ d :: init ++ [substitute base n l])
            = Some (NFile g)) →
  rename_file pf (MkPath false (d :: init ++ [base])) (PStr n) (PStr l) w
  = (Ok (MkPath false (d :: init ++ [substitute base n l])),
     with_fs
       (add_event w
          (EvRename (MkPath false (d :: init ++ [base]))
             (MkPath false (d :: init ++ [substitute base n l]))))
       (<[cwd pf ++ d :: init ++ [substitute base n l] := NFile f]>
          (delete (cwd pf ++ d :: init ++ [base]) (w_fs w)))).
Proof.
  intros Hd Hcwd Hb Hinit Hbase Hk Hmove Hne Hproper Hdst.
  pose proof (proper_name_spec _ Hproper) as (_ & _ & Hnd & _).
  assert (locate pf (w_fs w) (MkPath false (d :: init ++ [base]))
          = inr (cwd pf ++ d :: init ++ [base])) as Hsrc.
  { apply locate_entry; [done..|]. rewrite not_elem_of_app, not_elem_of_cons.
    split_and!; [done | by apply not_eq_sym | apply not_elem_of_nil]. }
  assert (locate pf (w_fs w) (MkPath false (d :: init ++ [substitute base n l]))
          = inr (cwd pf ++ d :: init ++ [substitute base n l])) as Hloc.
  { apply locate_entry; [done.. | by rewrite (below_last _ _ _ _ base) |].
    rewrite not_elem_of_app, not_elem_of_cons.
    split_and!; [done | by apply not_eq_sym | apply not_elem_of_nil]. }
  rewrite rename_file_eq. cbv zeta.
  change (d :: init ++ [base]) with ((d :: init) ++ [base]).
  rewrite name_snoc, parent_snoc. rewrite bool_decide_eq_true_2 by done.
  unfold truediv. rewrite (path_of_proper _ Hproper). cbn [p_absolute p_parts].
  change ((d :: init) ++ [base]) with (d :: init ++ [base]).
  change ((d :: init) ++ [substitute base n l])
    with (d :: init ++ [substitute base n l]).
  unfold rename_fs. rewrite Hsrc, Hloc, Hk, Hmove.
  rewrite bool_decide_eq_false_2.
  2:{ intros Heq. apply app_inv_head in Heq. injection Heq as Heq.
      apply app_inv_head in Heq. by simplify_eq. }
  destruct Hdst as [-> | (Hposix & g & ->)]; [done|]. by rewrite Hposix.
Qed.

(** X4 on the example of the specification. *)
Lemma rename_in_place_witness :
  (rename_file demo_pf
     (MkPath false [lit "force-app"; lit "classes";
                    lit "__PROJECT_NAME__Controller.cls"])
     (PStr ACME) (PStr ACME_LABEL) world_acme).1
  = Ok (MkPath false [lit "force-app"; lit "classes"; lit "AcmeController.cls"]).
Proof.
  refine (f_equal fst
            (rename_in_place demo_pf world_acme (lit "force-app") [lit "classes"]
               (lit "__PROJECT_NAME__Controller.cls")
               (plain_file 2 (Text (lit
                  "public class __PROJECT_NAME__Controller implements __PROJECT_LABEL__Interface")))
               ACME ACME_LABEL _ _ _ _ _ _ _ _ _ _)).
  - apply (bool_decide_unpack _); vm_compute; exact I.
  - vm_compute. reflexivity.
  - vm_compute. reflexivity.
  - apply (bool_decide_unpack _); vm_compute; exact I.
  - vm_compute. discriminate.
  - vm_compute. reflexivity.
  - reflexivity.
  - vm_compute. discriminate.
  - vm_compute. reflexivity.
  - left. vm_compute. reflexivity.
Defined.

(** X18: a rename onto a name that is taken by a directory, or by a
    regular file where a rename does not replace files (Windows), is
    refused: [rename_file] prints a warning and returns the path it was
    given, and the file system is left as it was. *)
Theorem rename_refused_when_taken pf w d init base f n l :
  d ∈ search_dirs →
  w_fs w !! cwd pf = Some NDir →
  below (w_fs w) (cwd pf ++ [d]) (init ++ [base]) = true →
  DOTDOT ∉ init → base ≠ DOTDOT →
  w_fs w !! (cwd pf ++ d :: init ++ [base]) = Some (NFile f) →
  f_move f = None →
  substitute base n l ≠ base → proper_name (substitute base n l) = true →
  (w_fs w !! (cwd pf ++ d :: init ++ [substitute base n l]) = Some NDir
   ∨ posix pf = false
     ∧ ∃ g, w_fs w !! (cwd pf ++ d :: init ++ [substitute base n l])
            = Some (NFile g)) →
  ∃ e, is_OSError e = true
       ∧ rename_file pf (MkPath false (d :: init ++ [base])) (PStr n) (PStr l) w
         = (Ok (MkPath false (d :: init ++ [base])),
            add_msg
              (add_event w
                 (EvRename (MkPath false (d :: init ++ [base]))
                    (MkPath false (d :: init ++ [substitute base n l]))))
              (MsgWarnRename (MkPath false (d :: init ++ [base]))
                 (MkPath false (d :: init ++ [substitute base n l])) e)).
Proof.
  intros Hd Hcwd Hb Hinit Hbase Hk Hmove Hne Hproper Hdst.
  pose proof (proper_name_spec _ Hproper) as (_ & _ & Hnd & _).
  assert (locate pf (w_fs w) (MkPath false (d :: init ++ [base]))
          = inr (cwd pf ++ d :: init ++ [base])) as Hsrc.
  { apply locate_entry; [done..|]. rewrite not_elem_of_app, not_elem_of_cons.
    split_and!; [done | by apply not_eq_sym | apply not_elem_of_nil]. }
  assert (locate pf (w_fs w) (MkPath false (d :: init ++ [substitute base n l]))
          = inr (cwd pf ++ d :: init ++ [substitute base n l])) as Hloc.
  { apply locate_entry; [done.. | by rewrite (below_last _ _ _ _ base) |].
    rewrite not_elem_of_app, not_elem_of_cons.
    split_and!; [done | by apply not_eq_sym | apply not_elem_of_nil]. }
  assert (∃ e, is_OSError e = true
               ∧ rename_fs pf (w_fs w) (MkPath false (d :: init ++ [base]))
                   (MkPath false (d :: init ++ [substitute base n l])) = inl e)
    as (e & He & Hren).
  { unfold rename_fs. rewrite Hsrc, Hloc, Hk, Hmove.
    rewrite bool_decide_eq_false_2.
    2:{ intros Heq. apply app_inv_head in Heq. injection Heq as Heq.
        apply app_inv_head in Heq. by simplify_eq. }
    destruct Hdst as [-> | (Hposix & g & ->)].
    - exists (if posix pf then IsADirectoryError else PermissionError).
      split; [by destruct (posix pf) | done].
    - rewrite Hposix. by exists FileExistsError. }
  exists e. split; [done|]. rewrite rename_file_eq. cbv zeta.
  change (d :: init ++ [base]) with ((d :: init) ++ [base]).
  rewrite name_snoc, parent_snoc. rewrite bool_decide_eq_true_2 by done.
  unfold truediv. rewrite (path_of_proper _ Hproper). cbn [p_absolute p_parts].
  change ((d :: init) ++ [base]) with (d :: init ++ [base]).
  change ((d :: init) ++ [substitute base n l])
    with (d :: init ++ [substitute base n l]).
  by rewrite Hren.
Qed.

(** X18 on two files of bytes, where a rename does not replace files. *)
Lemma rename_refused_when_taken_witness :
  ∃ e, is_OSError e = true
       ∧ rename_file demo_pf_windows
           (MkPath false (lit "force-app" :: [] ++ [lit "__PROJECT_NAME__.bin"]))
           (PStr ACME) (PStr ACME_LABEL) world_clash
         = (Ok (MkPath false (lit "force-app" :: [] ++ [lit "__PROJECT_NAME__.bin"])),
            add_msg
              (add_event world_clash
                 (EvRename
                    (MkPath false (lit "force-app" :: [] ++ [lit "__PROJECT_NAME__.bin"]))
                    (MkPath false
                       (lit "force-app"
                        :: [] ++ [substitute (lit "__PROJECT_NAME__.bin") ACME ACME_LABEL]))))
              (MsgWarnRename
                 (MkPath false (lit "force-app" :: [] ++ [lit "__PROJECT_NAME__.bin"]))
                 (MkPath false
                    (lit "force-app"
                     :: [] ++ [substitute (lit "__PROJECT_NAME__.bin") ACME ACME_LABEL]))
                 e)).
Proof.
  apply (rename_refused_when_taken demo_pf_windows world_clash (lit "force-app") []
           (lit "__PROJECT_NAME__.bin") (plain_file 3 (Binary [Byte.x81]))
           ACME ACME_LABEL).
  - apply (bool_decide_unpack _); vm_compute; exact I.
  - vm_compute. reflexivity.
  - vm_compute. reflexivity.
  - apply not_elem_of_nil.
  - vm_compute. discriminate.
  - vm_compute. reflexivity.
  - reflexivity.
  - vm_compute. discriminate.
  - vm_compute. reflexivity.
  - right. split; [reflexivity|].
    exists (plain_file 2 (Binary [Byte.x80])). vm_compute. reflexivity.
Defined.

(** ** The two scans *)

Section scan_specs.
Variable pf : platform.
Hypothesis faithful : faithful_listing pf.

Lemma wf_names_plain fs pre rel x :
wf_names fs = true → fs !! (pre ++ rel) = Some x → DOTDOT ∉ rel.
Proof.
intros Hwf Hk Hin. pose proof (wf_names_spec fs _ _ Hwf Hk) as Hall.
apply Forall_app in Hall as [_ Hall]. rewrite Forall_forall in Hall.
by destruct (proper_name_spec _ (Hall _ Hin)) as (_ & _ & ? & _).
Qed.

(** The entries of the scans are the files and directories below the
  searched directories of the working directory. *)
Lemma elem_of_entries_located fs p :
wf_names fs = true →
p ∈ entries pf fs ↔
∃ d rel, d ∈ search_dirs ∧ rel ≠ [] ∧ p = MkPath false (d :: rel)
         ∧ fs !! cwd pf = Some NDir
         ∧ below fs (cwd pf ++ [d]) rel = true
         ∧ is_Some (fs !! (cwd pf ++ d :: rel))
         ∧ locate pf fs p = inr (cwd pf ++ d :: rel).
Proof using faithful.
intros Hwf. rewrite (elem_of_entries pf fs p faithful). split.
- intros (d & c & rel & Hd & -> & Hcwd & [x Hx] & Hb).
  exists d, (c :: rel). split_and!; try done.
  apply locate_entry; try done.
  by apply (wf_names_plain fs (cwd pf ++ [d]) (c :: rel) x);
    [|rewrite <- app_assoc].
- intros (d & rel & Hd & Hrel & -> & Hcwd & Hb & Hx & _).
  destruct rel as [|c rel]; [done|]. by exists d, c, rel.
Qed.
End scan_specs.

(** X5: when the enumeration of the tree is faithful and the names in
    it are proper, the scan of the contents, if it returns, changes
    neither the file system nor the output, and returns exactly the
    paths [d/rel] of the regular files below the two searched
    directories of the working directory that can be read, decode to a
    text, and hold a token in that text. *)
Theorem content_scan_spec pf w files w' :
  faithful_listing pf → wf_names (w_fs w) = true →
  find_files_with_placeholders pf (lit ".") w = (Ok files, w') →
  w_fs w' = w_fs w ∧ w_out w' = w_out w
  ∧ ∀ p, p ∈ files ↔
         ∃ d rel f c,
           d ∈ search_dirs ∧ rel ≠ [] ∧ p = MkPath false (d :: rel)
           ∧ w_fs w !! cwd pf = Some NDir
           ∧ below (w_fs w) (cwd pf ++ [d]) rel = true
           ∧ w_fs w !! (cwd pf ++ d :: rel) = Some (NFile f)
           ∧ f_read f = None ∧ f_data f = Text c
           ∧ has_placeholder c = true.
Proof.
  intros Hlist Hwf Hscan.
  pose proof (find_files_with_placeholders_spec pf w) as Hspec. cbv zeta in Hspec.
  rewrite Hscan in Hspec. destruct Hspec as [[Hfs Hout] ->].
  split_and!; [done..|]. intros p.
  rewrite elem_of_content_candidates, (elem_of_entries_located pf Hlist) by done.
  split.
  - intros [(d & rel & Hd & Hrel & -> & Hcwd & Hb & _ & Hloc) Hm].
    unfold content_match, is_file_fs, is_reg, read_fs in Hm. rewrite Hloc in Hm.
    destruct (w_fs w !! (cwd pf ++ d :: rel)) as [[f|]|] eqn:Hk; try done.
    destruct (f_read f) eqn:Hr; [done|].
    destruct (f_data f) as [c|] eqn:Hdata; [|done].
    by exists d, rel, f, c.
  - intros (d & rel & f & c & Hd & Hrel & -> & Hcwd & Hb & Hk & Hr & Hdata & Hc).
    assert (locate pf (w_fs w) (MkPath false (d :: rel))
            = inr (cwd pf ++ d :: rel)) as Hloc.
    { apply locate_entry; try done.
      by apply (wf_names_plain (w_fs w) (cwd pf ++ [d]) rel (NFile f));
        [|rewrite <- app_assoc]. }
    split.
    + exists d, rel. by rewrite Hk.
    + unfold content_match, is_file_fs, is_reg, read_fs.
      by rewrite Hloc, Hk, Hr, Hdata.
Qed.

(** X5 on the example of the specification. *)
Lemma content_scan_spec_witness :
  w_fs (find_files_with_placeholders demo_pf (lit ".") world_acme).2
  = w_fs world_acme.
Proof.
  apply (content_scan_spec demo_pf world_acme
           [MkPath false [lit "force-app"; lit "classes";
                          lit "__PROJECT_NAME__Controller.cls"]]
           (find_files_with_placeholders demo_pf (lit ".") world_acme).2).
  - exact faithful_demo.
  - vm_compute. reflexivity.
  - apply outcome_eta. vm_compute. reflexivity.
Defined.



#[export] Hint Extern 1 (reading _) => eexists; reflexivity : sat.

Lemma find_files_with_placeholders_reading pf root :
  sat (grows reading) (find_files_with_placeholders pf root).
Proof. unfold find_files_with_placeholders. sat_split. Qed.


(** ** The loading of the configuration *)

Lemma dig_label_mapping cfg v :
  dig cfg NAME_KEY = Found v → dig cfg LABEL_KEY ≠ NotAMapping.
Proof.
  unfold NAME_KEY, LABEL_KEY. cbn [dig].
  destruct cfg as [| | | | |items]; try done.
  destruct (dict_get items (lit "project")) as [[| | | | |items']|]; try done.
  destruct (dict_get items' (lit "package")) as [[| | | | |items'']|]; try done.
  by destruct (dict_get items'' (lit "name_managed")).
Qed.

(** The loading block of [main], by cases. *)
Lemma load_block_eq pf w :
  load_block pf w =
  let w1 := add_event w (EvRead (path_of CONFIG_FILE)) in
  match (load_cumulusci_config pf w).1 with
  | Raise e => (Ok None, add_msg w1 (MsgErrorLoading e))
  | Ok cfg =>
      match (get_project_values cfg w1).1 with
      | Raise e => (Ok None, add_msg w1 (MsgErrorLoading e))
      | Ok (v1, v2) =>
          (Ok (Some (v1, v2)),
           add_msg (add_msg w1 (MsgProjectName v1)) (MsgProjectLabel v2))
      end
  end.
Proof.
  cbv zeta. unfold load_block, try_except. unfold bind at 1.
  rewrite load_cumulusci_config_eq. cbn [fst snd].
  destruct (match read_fs pf (w_fs w) (path_of CONFIG_FILE) with
            | inr text => _ | inl e => _ end) as [cfg|e]; [|done].
  unfold bind at 1. rewrite get_project_values_eq. cbn [fst snd].
  destruct (match dig cfg NAME_KEY with Found _ => _ | _ => _ end)
    as [[v1 v2]|e]; done.
Qed.

(** X7: [get_project_values] raises a [TypeError] exactly when the
    configuration, its [project] entry or the [package] entry of that is
    found and is no mapping (an empty document, for one); it never
    raises a [KeyError]. *)
Theorem get_project_values_type_error cfg w :
  ((get_project_values cfg w).1 = Raise TypeError
   ↔ dig cfg NAME_KEY = NotAMapping)
  ∧ ∀ key, (get_project_values cfg w).1 ≠ Raise (KeyError key).
Proof.
  rewrite get_project_values_eq. cbn [fst]. split.
  - destruct (dig cfg NAME_KEY) as [v| |] eqn:Hn; [|done..].
    pose proof (dig_label_mapping cfg v Hn) as Hl.
    destruct (dig cfg LABEL_KEY); done.
  - intros key. destruct (dig cfg NAME_KEY), (dig cfg LABEL_KEY); done.
Qed.





(** ** Runs with nothing to replace, and runs with values that are no
    strings *)

Lemma run_status pf w :
  (run pf w).1 = match (main pf w).1 with
                 | Ok None => 0%Z
                 | Ok (Some code) => code
                 | Raise _ => 1%Z
                 end.
Proof. unfold run. by destruct (main pf w) as [[[c|]|e] w']. Qed.

Lemma for_each_skip {X S} (xs : list X) (body : S → X → M S) acc w :
  (∀ x, x ∈ xs → body acc x w = (Ok acc, w)) →
  for_each xs body acc w = (Ok acc, w).
Proof.
  induction xs as [|x xs IH]; intros Hb; simpl; [done|].
  rewrite (bind_ok _ _ _ _ _ (Hb x ltac:(by left))).
  apply IH. intros y Hy. apply Hb. by right.
Qed.

Section nothing.
Variable pf : platform.

Lemma exists_fs_missing fs d :
d ∈ search_dirs → fs !! (cwd pf ++ [d]) = None →
exists_fs pf fs (MkPath false [d]) = false.
Proof.
intros Hd Hk. unfold exists_fs, locate. cbn [p_absolute p_parts walk].
destruct (fs !! cwd pf) as [[f|]|]; [done| |done].
rewrite step_plain by by apply search_dir_plain. by rewrite Hk.
Qed.

(** Without the searched directories the scans look at nothing. *)
Lemma find_files_with_placeholders_missing w :
(∀ d, d ∈ search_dirs → w_fs w !! (cwd pf ++ [d]) = None) →
find_files_with_placeholders pf (lit ".") w = (Ok [], w).
Proof.
intros Hmiss. unfold find_files_with_placeholders. cbv zeta.
apply for_each_skip. intros d Hd. rewrite search_dir_path by done.
unfold exists_, get_fs, bind, ret.
by rewrite (exists_fs_missing _ d Hd (Hmiss d Hd)).
Qed.

Lemma find_files_with_placeholder_names_missing w :
(∀ d, d ∈ search_dirs → w_fs w !! (cwd pf ++ [d]) = None) →
find_files_with_placeholder_names pf (lit ".") w = (Ok [], w).
Proof.
intros Hmiss. unfold find_files_with_placeholder_names. cbv zeta.
apply for_each_skip. intros d Hd. rewrite search_dir_path by done.
unfold exists_, get_fs, bind, ret.
by rewrite (exists_fs_missing _ d Hd (Hmiss d Hd)).
Qed.

(** The update of a content candidate with a value that is no string. *)
Lemma update_loop_type_error p rest v1 v2 c w :
read_fs pf (w_fs w) p = inr c → both_str v1 v2 = false →
update_loop pf (p :: rest) v1 v2 w = (Raise TypeError, add_event w (EvRead p)).
Proof.
intros Hr Hv. unfold update_loop. cbn [for_each].
by rewrite (bind_raise _ _ _ _ _
              (bind_raise _ _ _ _ _
                 (update_file_content_type_error pf p v1 v2 c w Hr Hv))).
Qed.

Lemma rename_loop_type_error p rest v1 v2 w :
both_str v1 v2 = false →
rename_loop pf (p :: rest) v1 v2 w = (Raise TypeError, w).
Proof.
intros Hv. unfold rename_loop. cbn [for_each].
by rewrite (bind_raise _ _ _ _ _
              (bind_raise _ _ _ _ _ (rename_file_not_str pf p v1 v2 w Hv))).
Qed.
End nothing.

(** X10: when the configuration is loaded and neither [force-app] nor
    [unpackaged] is in the working directory, the run makes no further
    file-system call, prints the counts 0 and the closing lines, and
    ends with status 0, whatever the two values are. *)
Theorem missing_search_dirs pf w v1 v2 w1 :
  load_block pf (add_msg w MsgStarting) = (Ok (Some (v1, v2)), w1) →
  (∀ d, d ∈ search_dirs → w_fs w !! (cwd pf ++ [d]) = None) →
  run pf w
  = (0%Z,
     after_renames
       (add_msg (after_scan (add_msg w1 MsgSearching) [] []) MsgRenaming) 0 0).
Proof.
  intros Hload Hmiss.
  pose proof (load_block_same_fs pf (add_msg w MsgStarting)) as Hfs.
  rewrite Hload in Hfs. unfold same_fs in Hfs. simpl in Hfs.
  apply run_main_none. unfold main. step_print. step_with Hload. step_print.
  rewrite (bind_ok _ _ _ _ _
             (find_files_with_placeholders_missing pf (add_msg w1 MsgSearching)
                ltac:(by simpl; rewrite Hfs))). cbv beta.
  rewrite (bind_ok _ _ _ _ _
             (find_files_with_placeholder_names_missing pf (add_msg w1 MsgSearching)
                ltac:(by simpl; rewrite Hfs))). cbv beta.
  do 3 step_print. unfold update_loop, rename_loop. cbn [for_each].
  unfold ret at 1. unfold bind at 1. step_print.
  unfold ret at 1. unfold bind at 1. do 4 step_print. done.
Qed.

(** X10 on a project directory that holds the configuration file only. *)
Lemma missing_search_dirs_witness :
  (run demo_pf
     (World (list_to_map
               [([], NDir); ([lit "repo"], NDir);
                ([lit "repo"; CONFIG_FILE], NFile (plain_file 1 (Text (lit "acme"))))])
        [] [])).1 = 0%Z.
Proof.
  refine (f_equal fst
            (missing_search_dirs demo_pf _ (PStr ACME) (PStr ACME_LABEL)
               (load_block demo_pf (add_msg _ MsgStarting)).2 _ _)).
  - apply outcome_eta. vm_compute. reflexivity.
  - intros d Hd. apply list_elem_of_In in Hd.
    destruct Hd as [<- | [<- | []]]; vm_compute; reflexivity.
Defined.



(** X12: when one of the two values of the configuration is no string
    and a scan finds a candidate, the run ends with status 1 and no
    file is changed; unless a read of the scan has failed before, the
    error is the [TypeError] of the first replacement. *)
Theorem non_string_values_abort pf w v1 v2 w1 :
  load_block pf (add_msg w MsgStarting) = (Ok (Some (v1, v2)), w1) →
  both_str v1 v2 = false →
  content_candidates pf (w_fs w) ≠ [] ∨ name_candidates pf (w_fs w) ≠ [] →
  (run pf w).1 = 1%Z
  ∧ w_fs (run pf w).2 = w_fs w
  ∧ (no_failing (w_fs w) → (main pf w).1 = Raise TypeError).
Proof.
  intros Hload Hv Hcand. rewrite run_status, run_world.
  pose proof (load_block_same_fs pf (add_msg w MsgStarting)) as Hfs1.
  rewrite Hload in Hfs1. unfold same_fs in Hfs1. simpl in Hfs1.
  destruct (main_outcome pf w) as [w1' Hload'|v1' v2' w1' e w2 Hload' Hscan
    |v1' v2' w1' w2 e w4 Hload' Hscan Hu
    |v1' v2' w1' w2 c w4 r w5 Hload' Hscan Hu Hr];
    rewrite Hload in Hload'; simplify_eq.
  - pose proof (find_files_with_placeholders_spec pf (add_msg w1' MsgSearching))
      as [[Hfs2 _] _]. rewrite Hscan in Hfs2. simpl in Hfs2.
    split_and!; [done | congruence |]. intros Hn.
    destruct (find_files_with_placeholders_ok pf (add_msg w1' MsgSearching))
      as (w' & Hok & _); [simpl; by rewrite Hfs1|]. congruence.
  - pose proof (find_files_with_placeholders_spec pf (add_msg w1' MsgSearching))
      as [[Hfs2 _] _]. rewrite Hscan in Hfs2. simpl in Hfs2.
    destruct (content_candidates pf (w_fs w)) as [|p rest] eqn:Hcc.
    { unfold update_loop in Hu. simpl in Hu. done. }
    assert (∃ c, read_fs pf (w_fs w) p = inr c) as [c Hread].
    { assert (p ∈ content_candidates pf (w_fs w)) as Hp by (rewrite Hcc; by left).
      apply elem_of_content_candidates in Hp as [_ Hp]. unfold content_match in Hp.
      destruct (read_fs pf (w_fs w) p) as [|c]; [by rewrite andb_false_r in Hp|].
      by exists c. }
    rewrite (update_loop_type_error pf p rest v1' v2' c) in Hu
      by (simpl; congruence || done).
    simplify_eq. split_and!; [done | simpl; congruence | done].
  - pose proof (find_files_with_placeholders_spec pf (add_msg w1' MsgSearching))
      as [[Hfs2 _] _]. rewrite Hscan in Hfs2. simpl in Hfs2.
    destruct (content_candidates pf (w_fs w)) as [|p rest] eqn:Hcc.
    + destruct Hcand as [Hcand | Hcand]; [done|].
      destruct (name_candidates pf (w_fs w)) as [|q rest']; [done|].
      unfold update_loop in Hu. simpl in Hu. unfold ret in Hu. simplify_eq.
      rewrite (rename_loop_type_error pf q rest' v1' v2') in Hr by done.
      simplify_eq. split_and!; [done | simpl; congruence | done].
    + assert (∃ c, read_fs pf (w_fs w) p = inr c) as [c0 Hread].
      { assert (p ∈ content_candidates pf (w_fs w)) as Hp by (rewrite Hcc; by left).
        apply elem_of_content_candidates in Hp as [_ Hp]. unfold content_match in Hp.
        destruct (read_fs pf (w_fs w) p) as [|c0]; [by rewrite andb_false_r in Hp|].
        by exists c0. }
      rewrite (update_loop_type_error pf p rest v1' v2' c0) in Hu
        by (simpl; congruence || done).
      done.
Qed.

(** X12 on a configuration whose name is the integer 5. *)
Lemma non_string_values_abort_witness :
  (run (Platform [lit "repo"] true
          (λ _, Some (demo_config (PInt 5) (PStr ACME_LABEL))) (λ l, l))
     world_acme).1 = 1%Z.
Proof.
  apply (non_string_values_abort
           (Platform [lit "repo"] true
              (λ _, Some (demo_config (PInt 5) (PStr ACME_LABEL))) (λ l, l))
           world_acme (PInt 5) (PStr ACME_LABEL)
           (load_block (Platform [lit "repo"] true
              (λ _, Some (demo_config (PInt 5) (PStr ACME_LABEL))) (λ l, l))
              (add_msg world_acme MsgStarting)).2).
  - apply outcome_eta. vm_compute. reflexivity.
  - reflexivity.
  - left. vm_compute. discriminate.
Defined.

(** ** The lines a run prints *)

Global Instance prints_preorder P : PreOrder (prints P).
Proof.
  split.
  - intros w. exists []. by rewrite app_nil_r.
  - intros w1 w2 w3 (m1 & H1 & F1) (m2 & H2 & F2). exists (m1 ++ m2).
    rewrite H2, H1, <- app_assoc. split; [done | by apply Forall_app].
Qed.

Section output.
Variable pf : platform.
Variable P : message → Prop.

Lemma prints_print msg : P msg → sat (prints P) (print msg).
Proof. intros Hm w. exists [msg]. split; [done | by constructor]. Qed.

Lemma prints_log ev : sat (prints P) (log ev).
Proof. intros w. exists []. by rewrite app_nil_r. Qed.

Lemma prints_get_fs : sat (prints P) get_fs.
Proof. intros w. reflexivity. Qed.

Lemma prints_set_fs fs : sat (prints P) (set_fs fs).
Proof. intros w. exists []. by rewrite app_nil_r. Qed.

Lemma prints_open_read p : sat (prints P) (open_read pf p).
Proof.
unfold open_read. sat_split; auto using prints_log, prints_get_fs.
Qed.

Lemma prints_open_write p s : sat (prints P) (open_write pf p s).
Proof.
unfold open_write.
sat_split; auto using prints_log, prints_get_fs, prints_set_fs.
Qed.

Lemma prints_os_rename p q : sat (prints P) (os_rename pf p q).
Proof.
unfold os_rename.
sat_split; auto using prints_log, prints_get_fs, prints_set_fs.
Qed.

Lemma prints_exists p : sat (prints P) (exists_ pf p).
Proof. unfold exists_. sat_split; apply prints_get_fs. Qed.

Lemma prints_is_file p : sat (prints P) (is_file pf p).
Proof. unfold is_file. sat_split; apply prints_get_fs. Qed.

Lemma prints_rglob p : sat (prints P) (rglob pf p).
Proof. unfold rglob. sat_split; apply prints_get_fs. Qed.

Lemma prints_str_replace s old new : sat (prints P) (str_replace s old new).
Proof. unfold str_replace. sat_split. Qed.

Lemma prints_then w w' m : prints P w w' → P m → prints P w (add_msg w' m).
Proof.
intros (ms & Hms & Hall) Hm. exists (ms ++ [m]). split.
- cbn [add_msg w_out]. by rewrite Hms, <- app_assoc.
- apply Forall_app. split; [done | by constructor].
Qed.
End output.

#[export] Hint Resolve prints_print prints_log prints_get_fs prints_set_fs
  prints_open_read prints_open_write prints_os_rename prints_exists
  prints_is_file prints_rglob prints_str_replace : sat.
#[export] Hint Extern 1 (not_updated _) => reflexivity : sat.
#[export] Hint Extern 1 (not_renamed _) => reflexivity : sat.
#[export] Hint Extern 1 (not_completed _) =>
  unfold not_completed; discriminate : sat.

Section lines.
Variable pf : platform.

Lemma update_file_content_not_updated p v1 v2 :
sat (prints not_updated) (update_file_content pf p v1 v2).
Proof. unfold update_file_content. sat_split. Qed.

Lemma rename_file_not_renamed p v1 v2 :
sat (prints not_renamed) (rename_file pf p v1 v2).
Proof. unfold rename_file. sat_split. Qed.

Lemma load_block_not_completed : sat (prints not_completed) (load_block pf).
Proof.
unfold load_block, load_cumulusci_config, get_project_values. sat_split.
Qed.

Lemma find_files_with_placeholders_not_completed root :
sat (prints not_completed) (find_files_with_placeholders pf root).
Proof. unfold find_files_with_placeholders. sat_split. Qed.

Lemma update_loop_not_completed files v1 v2 :
sat (prints not_completed) (update_loop pf files v1 v2).
Proof. unfold update_loop, update_file_content. sat_split. Qed.

Lemma rename_loop_not_completed files v1 v2 :
sat (prints not_completed) (rename_loop pf files v1 v2).
Proof. unfold rename_loop, rename_file. sat_split. Qed.

Lemma filter_none {X} (f : X → bool) ms :
Forall (λ m, f m = false) ms → List.filter f ms = [].
Proof.
induction 1 as [|m ms Hm _ IH]; simpl; [done|]. by rewrite Hm.
Qed.

(** The counter of the update loop and the lines it prints. *)
Lemma update_loop_from files v1 v2 acc w c w' :
for_each files
  (λ content_updated file_path,
     changed <- update_file_content pf file_path v1 v2;;
     if changed : bool then
       print (MsgUpdated file_path);; ret (S content_updated)
     else ret content_updated)
  acc w = (Ok c, w') →
∃ ms updated,
  w_out w' = w_out w ++ ms
  ∧ updated `sublist_of` files
  ∧ List.filter is_updated ms = map MsgUpdated updated
  ∧ c = acc + length updated.
Proof.
revert acc w. induction files as [|x files IH]; intros acc w Hrun.
- simpl in Hrun. unfold ret in Hrun. simplify_eq.
  exists [], []. rewrite app_nil_r. split_and!; [done..|]. simpl. lia.
- cbn [for_each] in Hrun. unfold bind at 1 2 in Hrun.
  destruct (update_file_content_not_updated x v1 v2 w) as (m1 & Hm1 & Hall).
  destruct (update_file_content pf x v1 v2 w) as [[[]|e] wa]; [| |done].
  + unfold print at 1 in Hrun. unfold bind at 1 in Hrun.
    unfold ret at 1 in Hrun.
    apply IH in Hrun as (ms & updated & Hout & Hsub & Hf & ->).
    exists (m1 ++ MsgUpdated x :: ms), (x :: updated). split_and!.
    * rewrite Hout. cbn [w_out]. simpl in Hm1. rewrite Hm1.
      by rewrite <- !app_assoc.
    * by apply sublist_skip.
    * rewrite List.filter_app, (filter_none _ _ Hall). simpl. by rewrite Hf.
    * simpl. lia.
  + unfold ret at 1 in Hrun.
    apply IH in Hrun as (ms & updated & Hout & Hsub & Hf & ->).
    exists (m1 ++ ms), updated. split_and!.
    * rewrite Hout. simpl in Hm1. rewrite Hm1. by rewrite <- !app_assoc.
    * by apply sublist_cons.
    * by rewrite List.filter_app, (filter_none _ _ Hall).
    * done.
Qed.

(** The counter of the rename loop and the lines it prints. *)
Lemma rename_loop_from files v1 v2 acc w c w' :
for_each files
  (λ renamed file_path,
     new_path <- rename_file pf file_path v1 v2;;
     if bool_decide (new_path ≠ file_path) then
       print (MsgRenamed (name file_path) (name new_path));; ret (S renamed)
     else ret renamed)
  acc w = (Ok c, w') →
∃ ms moves,
  w_out w' = w_out w ++ ms
  ∧ map fst moves `sublist_of` files
  ∧ Forall (λ pq : Path * Path, pq.2 ≠ pq.1) moves
  ∧ List.filter is_renamed ms
    = map (λ pq : Path * Path, MsgRenamed (name pq.1) (name pq.2)) moves
  ∧ c = acc + length moves.
Proof.
revert acc w. induction files as [|x files IH]; intros acc w Hrun.
- simpl in Hrun. unfold ret in Hrun. simplify_eq.
  exists [], []. rewrite app_nil_r. split_and!; [done..|]. simpl. lia.
- cbn [for_each] in Hrun. unfold bind at 1 2 in Hrun.
  destruct (rename_file_not_renamed x v1 v2 w) as (m1 & Hm1 & Hall).
  destruct (rename_file pf x v1 v2 w) as [[q|e] wa]; [|done].
  case_bool_decide as Hq.
  + unfold print at 1 in Hrun. unfold bind at 1 in Hrun.
    unfold ret at 1 in Hrun.
    apply IH in Hrun as (ms & moves & Hout & Hsub & Hne & Hf & ->).
    exists (m1 ++ MsgRenamed (name x) (name q) :: ms), ((x, q) :: moves).
    split_and!.
    * rewrite Hout. cbn [w_out]. simpl in Hm1. rewrite Hm1.
      by rewrite <- !app_assoc.
    * simpl. by apply sublist_skip.
    * by constructor.
    * rewrite List.filter_app, (filter_none _ _ Hall). simpl. by rewrite Hf.
    * simpl. lia.
  + unfold ret at 1 in Hrun.
    apply IH in Hrun as (ms & moves & Hout & Hsub & Hne & Hf & ->).
    exists (m1 ++ ms), moves. split_and!.
    * rewrite Hout. simpl in Hm1. rewrite Hm1. by rewrite <- !app_assoc.
    * by apply sublist_cons.
    * done.
    * by rewrite List.filter_app, (filter_none _ _ Hall).
    * done.
Qed.

(** What a run prints, by the way it ends. *)
Lemma main_output w :
∃ ms, w_out (main pf w).2 = w_out w ++ ms
      ∧ match (main pf w).1 with
        | Ok None => MsgCompleted ∈ ms
        | Ok (Some code) => code = 1%Z ∧ Forall not_completed ms
        | Raise _ => Forall not_completed ms
        end.
Proof.
assert (∀ w1 r, load_block pf (add_msg w MsgStarting) = (r, w1) →
                prints not_completed w w1) as Hloaded.
{ intros w1 r Hload.
  pose proof (load_block_not_completed (add_msg w MsgStarting)) as H1.
  rewrite Hload in H1. cbn [snd] in H1. etrans; [|exact H1].
  apply prints_then; [reflexivity | by unfold not_completed]. }
assert (∀ w1 w2 r, prints not_completed w w1 →
          find_files_with_placeholders pf (lit ".") (add_msg w1 MsgSearching)
          = (r, w2) →
          prints not_completed w w2) as Hscanned.
{ intros w1 w2 r Hw1 Hscan.
  pose proof (find_files_with_placeholders_not_completed (lit ".")
                (add_msg w1 MsgSearching)) as H2.
  rewrite Hscan in H2. cbn [snd] in H2. etrans; [|exact H2].
  apply prints_then; [done | by unfold not_completed]. }
assert (∀ w2 w4 fu fr v1 v2 r, prints not_completed w w2 →
          update_loop pf fu v1 v2 (after_scan w2 fu fr) = (r, w4) →
          prints not_completed w w4) as Hupdated.
{ intros w2 w4 fu fr v1 v2 r Hw2 Hu.
  pose proof (update_loop_not_completed fu v1 v2 (after_scan w2 fu fr)) as H3.
  rewrite Hu in H3. cbn [snd] in H3. etrans; [|exact H3]. unfold after_scan.
  do 3 (apply prints_then; [|by unfold not_completed]). done. }
destruct (main_outcome pf w) as [w1 Hload|v1 v2 w1 e w2 Hload Hscan
  |v1 v2 w1 w2 e w4 Hload Hscan Hu|v1 v2 w1 w2 c w4 r w5 Hload Hscan Hu Hr].
- destruct (Hloaded _ _ Hload) as (ms & Hms & Hall). by exists ms.
- destruct (Hscanned _ _ _ (Hloaded _ _ Hload) Hscan) as (ms & Hms & Hall).
  by exists ms.
- destruct (Hupdated _ _ _ _ _ _ _
              (Hscanned _ _ _ (Hloaded _ _ Hload) Hscan) Hu)
    as (ms & Hms & Hall).
  by exists ms.
- pose proof (Hupdated _ _ _ _ _ _ _
                (Hscanned _ _ _ (Hloaded _ _ Hload) Hscan) Hu) as H4.
  pose proof (rename_loop_not_completed (name_candidates pf (w_fs w)) v1 v2
                (add_msg w4 MsgRenaming)) as H5.
  rewrite Hr in H5. cbn [snd] in H5.
  assert (prints not_completed w w5) as (ms & Hms & Hall).
  { etrans; [|exact H5]. apply prints_then; [done | by unfold not_completed]. }
  destruct r as [n|e].
  + exists (ms ++ [MsgSummary; MsgSummaryUpdated c; MsgSummaryRenamed n;
                   MsgCompleted]).
    split.
    * unfold after_renames, add_msg. cbn [w_out]. rewrite Hms.
      by rewrite <- !app_assoc.
    * rewrite elem_of_app. right. set_solver.
  + by exists ms.
Qed.
End lines.

(** X13: when the update loop returns, the count it returns is the
    number of files for which it printed an [Updated content] line;
    these lines name, in order, candidates of the list it was given. *)
Theorem update_loop_count pf files v1 v2 w c w' :
  update_loop pf files v1 v2 w = (Ok c, w') →
  ∃ ms updated,
    w_out w' = w_out w ++ ms
    ∧ updated `sublist_of` files
    ∧ List.filter is_updated ms = map MsgUpdated updated
    ∧ c = length updated.
Proof.
  intros Hrun. apply update_loop_from in Hrun as (ms & updated & ? & ? & ? & ->).
  by exists ms, updated.
Qed.

(** X13 on the example of the specification. *)
Lemma update_loop_count_witness :
  ∃ ms updated,
    w_out (update_loop demo_pf
             [MkPath false [lit "force-app"; lit "classes";
                            lit "__PROJECT_NAME__Controller.cls"]]
             (PStr ACME) (PStr ACME_LABEL) world_acme).2
    = w_out world_acme ++ ms
    ∧ updated `sublist_of`
        [MkPath false [lit "force-app"; lit "classes";
                       lit "__PROJECT_NAME__Controller.cls"]]
    ∧ List.filter is_updated ms = map MsgUpdated updated
    ∧ 1 = length updated.
Proof.
  apply (update_loop_count demo_pf
           [MkPath false [lit "force-app"; lit "classes";
                          lit "__PROJECT_NAME__Controller.cls"]]
           (PStr ACME) (PStr ACME_LABEL) world_acme 1).
  apply outcome_eta. vm_compute. reflexivity.
Defined.

(** X14: when the rename loop returns, the count it returns is the
    number of [Renamed] lines it printed; each of these lines gives the
    base name of a candidate of the list and the base name of the
    different path [rename_file] returned for it. *)
Theorem rename_loop_count pf files v1 v2 w c w' :
  rename_loop pf files v1 v2 w = (Ok c, w') →
  ∃ ms moves,
    w_out w' = w_out w ++ ms
    ∧ map fst moves `sublist_of` files
    ∧ Forall (λ pq : Path * Path, pq.2 ≠ pq.1) moves
    ∧ List.filter is_renamed ms
      = map (λ pq : Path * Path, MsgRenamed (name pq.1) (name pq.2)) moves
    ∧ c = length moves.
Proof.
  intros Hrun.
  apply rename_loop_from in Hrun as (ms & moves & ? & ? & ? & ? & ->).
  by exists ms, moves.
Qed.

(** X14 on the example of the specification. *)
Lemma rename_loop_count_witness :
  ∃ ms moves,
    w_out (rename_loop demo_pf
             [MkPath false [lit "force-app"; lit "classes";
                            lit "__PROJECT_NAME__Controller.cls"]]
             (PStr ACME) (PStr ACME_LABEL) world_acme).2
    = w_out world_acme ++ ms
    ∧ map fst moves `sublist_of`
        [MkPath false [lit "force-app"; lit "classes";
                       lit "__PROJECT_NAME__Controller.cls"]]
    ∧ Forall (λ pq : Path * Path, pq.2 ≠ pq.1) moves
    ∧ List.filter is_renamed ms
      = map (λ pq : Path * Path, MsgRenamed (name pq.1) (name pq.2)) moves
    ∧ 1 = length moves.
Proof.
  apply (rename_loop_count demo_pf
           [MkPath false [lit "force-app"; lit "classes";
                          lit "__PROJECT_NAME__Controller.cls"]]
           (PStr ACME) (PStr ACME_LABEL) world_acme 1).
  apply outcome_eta. vm_compute. reflexivity.
Defined.

(** X15: a run creates nothing.  Every regular file after the run is a
    file of before the run, with the same identity, and the same in
    everything unless it held a text; and the directories after the run
    are the directories of before the run, at the same locations. *)
Theorem run_creates_nothing pf w :
  (∀ q f', w_fs (run pf w).2 !! q = Some (NFile f') →
           ∃ k f, w_fs w !! k = Some (NFile f) ∧ f_ino f' = f_ino f
                  ∧ (f' = f ∨ ∃ c, f_data f = Text c))
  ∧ (∀ k, w_fs (run pf w).2 !! k = Some NDir ↔ w_fs w !! k = Some NDir).
Proof.
  rewrite run_world. split.
  - apply main_kept.
  - intros k. symmetry. apply (main_dirs_same pf w).
Qed.

(** X16: the closing line [Placeholder replacement completed
    successfully!] is among the lines a run prints exactly when the
    exit status is 0; and the exit status is 0 or 1. *)
Theorem completed_iff_status_zero pf w :
  ∃ ms, w_out (run pf w).2 = w_out w ++ ms
        ∧ ((run pf w).1 = 0%Z ↔ MsgCompleted ∈ ms)
        ∧ ((run pf w).1 = 0%Z ∨ (run pf w).1 = 1%Z).
Proof.
  rewrite run_status, run_world.
  destruct (main_output pf w) as (ms & Hms & Hres). exists ms.
  split; [done|]. destruct (main pf w).1 as [[code|]|e].
  - destruct Hres as [-> Hall]. split; [|by right]. split; [done|].
    intros Hin. rewrite Forall_forall in Hall. by destruct (Hall _ Hin).
  - split; [done | by left].
  - split; [|by right]. split; [done|].
    intros Hin. rewrite Forall_forall in Hres. by destruct (Hres _ Hin).
Qed.

(** ** The errors that leave [main] *)

Lemma for_each_raises {X S} (E : exn → Prop) (xs : list X)
    (body : S → X → M S) acc w e :
  (∀ acc x w e, x ∈ xs → (body acc x w).1 = Raise e → E e) →
  (for_each xs body acc w).1 = Raise e → E e.
Proof.
  revert acc w. induction xs as [|x xs IH]; intros acc w Hb; simpl; [done|].
  unfold bind. destruct (body acc x w) as [[acc'|e'] w1] eqn:Hx; cbn [fst].
  - apply IH. intros ? ? ? ? ?. apply Hb. by right.
  - intros ?. simplify_eq. apply (Hb acc x w e); [by left | by rewrite Hx].
Qed.

Section errors.
Variable pf : platform.

Lemma read_fs_error fs p e :
read_fs pf fs p = inl e → is_OSError e = true ∨ e = UnicodeDecodeError.
Proof.
unfold read_fs, locate. destruct (walk fs _ _) as [e'|k] eqn:Hw.
- intros ?. simplify_eq. left. by destruct (walk_error _ _ _ _ Hw) as [-> | ->].
- destruct (fs !! k) as [[f|]|]; [|intros; simplify_eq; by left..].
  destruct (f_read f) as [[]|]; [intros; simplify_eq; by left..|].
  destruct (f_data f); intros; simplify_eq. by right.
Qed.

Lemma write_fs_error fs p s e :
write_fs pf fs p s = inl e → is_OSError e = true.
Proof.
unfold write_fs, locate. destruct (walk fs _ _) as [e'|k] eqn:Hw.
- intros ?. simplify_eq. by destruct (walk_error _ _ _ _ Hw) as [-> | ->].
- destruct (fs !! k) as [[f|]|]; [|intros; simplify_eq; done..].
  destruct (f_write f) as [[]|]; intros; simplify_eq; done.
Qed.

Lemma uncaught_read fs p e :
read_fs pf fs p = inl e → is_decode_or_permission e = false →
uncaught_os_error e.
Proof.
intros Hr He. destruct (read_fs_error _ _ _ Hr) as [Hos | ->]; [|done].
split; [done|]. by intros ->.
Qed.

Lemma update_file_content_raises p v1 v2 w e :
(update_file_content pf p v1 v2 w).1 = Raise e →
e = TypeError ∨ uncaught_os_error e.
Proof.
destruct (both_str_cases v1 v2) as [(n & l & -> & ->) | Hv].
- rewrite update_file_content_eq. cbv zeta.
  destruct (read_fs pf (w_fs w) p) as [e'|c] eqn:Hr.
  + destruct (is_decode_or_permission e') eqn:He; [done|].
    cbn [fst]. intros ?. simplify_eq. right. exact (uncaught_read _ _ _ Hr He).
  + case_bool_decide; [|done].
    destruct (write_fs pf (w_fs w) p _) as [e'|fs'] eqn:Hw; [|done].
    destruct (is_decode_or_permission e') eqn:He; [done|].
    cbn [fst]. intros ?. simplify_eq. right. split; [exact (write_fs_error _ _ _ _ Hw)|].
    by intros ->.
- destruct (read_fs pf (w_fs w) p) as [e'|c] eqn:Hr.
  + unfold update_file_content, try_except, open_read, bind, log, get_fs,
      lift, raise. cbn [w_fs]. rewrite Hr.
    destruct (is_decode_or_permission e') eqn:He; [done|].
    cbn [fst]. intros ?. simplify_eq. right. exact (uncaught_read _ _ _ Hr He).
  + rewrite (update_file_content_type_error pf p v1 v2 c w Hr Hv).
    cbn [fst]. intros ?. simplify_eq. by left.
Qed.

Lemma rename_file_raises p v1 v2 w e :
(rename_file pf p v1 v2 w).1 = Raise e → e = TypeError.
Proof.
destruct (both_str_cases v1 v2) as [(n & l & -> & ->) | Hv].
- rewrite rename_file_eq. cbv zeta. case_bool_decide; [|done].
  by destruct (rename_fs pf (w_fs w) p _).
- rewrite (rename_file_not_str pf p v1 v2 w Hv). cbn [fst]. intros ?. by simplify_eq.
Qed.

Lemma update_loop_raises files v1 v2 w e :
(update_loop pf files v1 v2 w).1 = Raise e →
e = TypeError ∨ uncaught_os_error e.
Proof.
unfold update_loop.
apply (for_each_raises (λ e, e = TypeError ∨ uncaught_os_error e)). clear.
intros acc x w e _. unfold bind.
pose proof (update_file_content_raises x v1 v2 w) as Hx.
destruct (update_file_content pf x v1 v2 w) as [[[]|e'] w1]; [done..|].
cbn [fst] in *. intros ?. simplify_eq. by apply Hx.
Qed.

Lemma rename_loop_raises files v1 v2 w e :
(rename_loop pf files v1 v2 w).1 = Raise e → e = TypeError.
Proof.
unfold rename_loop. apply (for_each_raises (λ e, e = TypeError)). clear.
intros acc x w e _. unfold bind.
pose proof (rename_file_raises x v1 v2 w) as Hx.
destruct (rename_file pf x v1 v2 w) as [[q|e'] w1].
- by case_bool_decide.
- cbn [fst] in *. intros ?. simplify_eq. by apply Hx.
Qed.
End errors.


